(** * USERMOD: attribute registry and command dispatch

    A shallow embedding of the USERMOD command of InspIRCd
    ([Attribute] and its four implementations, [CommandUserMod],
    [ModuleUserMod::ReadConfig]) together with the properties of the
    registry, the privilege check, the validators and the routing. *)

From Stdlib Require Import List String Ascii NArith Arith Bool Lia.
Import ListNotations.

Local Open Scope string_scope.
Local Open Scope list_scope.

Set Implicit Arguments.

(* ================================================================== *)
(** * Strings as the code uses them *)

Definition NUL : ascii := "000"%char.

(** [static_cast<unsigned char>(c)] *)
Definition uchar (c : ascii) : N := N_of_ascii c.

(** [s.c_str()] read through a [%s] conversion: the characters before
    the first NUL. *)
Fixpoint c_str (s : string) : string :=
  match s with
  | EmptyString => EmptyString
  | String c rest => if Ascii.eqb c NUL then EmptyString else String c (c_str rest)
  end.

(** Modelled from the spec: [InspIRCd::Format] is declared outside this
    file.  It is the printf-style formatter; the only conversion the
    command uses is [%s], which is replaced by the next argument read as a
    C string. *)
Fixpoint Format (fmt : string) (args : list string) : string :=
  match fmt with
  | EmptyString => EmptyString
  | String c rest =>
      match rest with
      | String d rest' =>
          if (Ascii.eqb c "%" && Ascii.eqb d "s")%bool
          then match args with
               | a :: args' => c_str a ++ Format rest' args'
               | [] => Format rest' []
               end
          else String c (Format rest args)
      | EmptyString => String c EmptyString
      end
  end.

(** Membership of a character in a string. *)
Fixpoint InStr (c : ascii) (s : string) : Prop :=
  match s with
  | EmptyString => False
  | String d rest => c = d \/ InStr c rest
  end.

(* ================================================================== *)
(** * The case-insensitive ordering and the flat map *)

Section FlatMap.

(** [national_case_insensitive_map]: the table that folds case.  It is
    chosen by the server configuration, so it is a parameter here. *)
Variable casemap : ascii -> ascii.

(** Modelled from the spec: [irc::insensitive_swo] is declared outside
    this file.  It is the strict weak ordering of the registry
    ("an ordered mapping ..., case-insensitive"): strings are compared
    character by character after case folding, and a proper prefix
    comes first. *)
Fixpoint insensitive_swo (a b : string) : bool :=
  match a, b with
  | String x a', String y b' =>
      let A := uchar (casemap x) in
      let B := uchar (casemap y) in
      if (B <? A)%N then false
      else if (A <? B)%N then true
      else insensitive_swo a' b'
  | EmptyString, String _ _ => true
  | _, EmptyString => false
  end.

(** Two keys are the same key for the map when neither orders before
    the other. *)
Definition equivalent (a b : string) : bool :=
  negb (insensitive_swo a b) && negb (insensitive_swo b a).

(** The string with every character folded. *)
Fixpoint fold_case (s : string) : string :=
  match s with
  | EmptyString => EmptyString
  | String c rest => String (casemap c) (fold_case rest)
  end.

Variable V : Type.

(** Modelled from the spec: [insp::flat_map] is declared outside this
    file.  It is a vector of (key, value) pairs kept sorted by the
    ordering; "lookups are by exact case-insensitive name match" and
    registration "inserts or replaces". *)
Definition flat_map := list (string * V).

(** [std::lower_bound]: the elements that order before [x], and the
    rest, which starts at the first element not ordered before [x]. *)
Fixpoint lower_bound (x : string) (vect : flat_map) : flat_map * flat_map :=
  match vect with
  | [] => ([], [])
  | (k, v) :: rest =>
      if insensitive_swo k x
      then let (before, after) := lower_bound x rest in ((k, v) :: before, after)
      else ([], vect)
  end.

(** [vect.find(x)]; [None] is [vect.end()]. *)
Definition find (x : string) (vect : flat_map) : option V :=
  match snd (lower_bound x vect) with
  | (k, v) :: _ => if insensitive_swo x k then None else Some v
  | [] => None
  end.

(** [vect[x] = v]: [operator[]] inserts a default element when the key
    is absent and returns a reference to the mapped value, which the
    assignment then overwrites.  A key that is already present keeps
    its own spelling. *)
Definition subscript_assign (x : string) (v : V) (vect : flat_map) : flat_map :=
  let (before, after) := lower_bound x vect in
  match after with
  | (k, v') :: rest =>
      if insensitive_swo x k
      then before ++ (x, v) :: after
      else before ++ (k, v) :: rest
  | [] => before ++ [(x, v)]
  end.

Definition keys (vect : flat_map) : list string := map fst vect.

(** The invariant of the vector: every key orders before the keys that
    come after it. *)
Fixpoint ordered (ks : list string) : Prop :=
  match ks with
  | [] => True
  | k :: rest => (forall k', In k' rest -> insensitive_swo k k' = true) /\ ordered rest
  end.

Definition sorted (vect : flat_map) : Prop := ordered (keys vect).

End FlatMap.

(* ================================================================== *)
(** * Users, the server instance and the state of the module *)

(** A [User*]. *)
Definition UserPtr := nat.

(** Modelled from the spec: the kinds of user are declared outside this
    file; a user is "locally owned" when it is of the local kind. *)
Inductive UserType := USERTYPE_LOCAL | USERTYPE_REMOTE | USERTYPE_SERVER.

(** Modelled from the spec: [User] is declared outside this file.  The
    fields are the ones the command reads or writes: the nickname, the
    ident, the displayed host and the real name that the four attributes
    change, the registration state ("fully registered on the network"),
    the kind of user ("locally owned") and the virtual
    [HasPrivPermission]. *)
Record User := mkUser {
  nick : string;
  ident : string;
  displayhost : string;
  realname : string;
  registered : N;
  usertype : UserType;
  HasPrivPermission : string -> bool
}.

(** Modelled from the spec: the macro [IS_LOCAL] is declared outside this
    file; [IS_LOCAL(x)] is non-null exactly when [x] is "owned by the
    local process". *)
Definition IS_LOCAL (u : User) : bool :=
  match usertype u with USERTYPE_LOCAL => true | _ => false end.

(** Modelled from the spec: [User::ChangeDisplayedHost] is declared
    outside this file; it "sets the target's displayed host". *)
Definition ChangeDisplayedHost (value : string) (u : User) : User :=
  mkUser (nick u) (ident u) value (realname u) (registered u) (usertype u)
         (HasPrivPermission u).

(** Modelled from the spec: [User::ChangeNick] is declared outside this
    file; it "renames the target". *)
Definition ChangeNick (value : string) (u : User) : User :=
  mkUser value (ident u) (displayhost u) (realname u) (registered u) (usertype u)
         (HasPrivPermission u).

(** Modelled from the spec: [User::ChangeRealName] is declared outside
    this file; it "sets the target's free-text real name". *)
Definition ChangeRealName (value : string) (u : User) : User :=
  mkUser (nick u) (ident u) (displayhost u) value (registered u) (usertype u)
         (HasPrivPermission u).

(** Modelled from the spec: [User::ChangeIdent] is declared outside this
    file; it "sets the target's ident/username". *)
Definition ChangeIdent (value : string) (u : User) : User :=
  mkUser (nick u) value (displayhost u) (realname u) (registered u) (usertype u)
         (HasPrivPermission u).

(** The users, by address. *)
Definition Heap := UserPtr -> User.

Definition store (p : UserPtr) (u : User) (h : Heap) : Heap :=
  fun q => if Nat.eqb q p then u else h q.

(** [ServerInstance->Config->Limits] *)
Record ServerLimits := mkLimits {
  MaxHost : nat;
  MaxReal : nat;
  IdentMax : nat
}.

(** The parts of [ServerInstance] the command calls.  [FindNick] returns
    [None] for a null pointer. *)
Record InspIRCd := mkInspIRCd {
  Limits : ServerLimits;
  IsNick : string -> bool;
  IsIdent : string -> bool;
  FindNick : Heap -> string -> option UserPtr
}.

(** The four implementations of [struct Attribute]. *)
Inductive Attribute := HostAttribute | NickAttribute | RealAttribute | UserAttribute.

(** [std::bitset<UCHAR_MAX>]: bits 0 to [UCHAR_MAX - 1], held in a
    number; [test] and [set] throw for a position that is not below the
    size. *)
Definition UCHAR_MAX : N := 255.
Definition bitset := N.

(** What a call can end in besides returning: the [std::out_of_range]
    that a [bitset] throws for a position past its size, and an index
    past the end of the parameter vector. *)
Inductive Fault := out_of_range | out_of_bounds.

Inductive Outcome (A : Type) :=
| Returned (a : A)
| Failed (f : Fault).
Arguments Failed {A} f.

Definition bitset_test (b : bitset) (pos : N) : Outcome bool :=
  if (pos <? UCHAR_MAX)%N then Returned (N.testbit b pos) else Failed out_of_range.

Definition bitset_set (b : bitset) (pos : N) : Outcome bitset :=
  if (pos <? UCHAR_MAX)%N then Returned (N.setbit b pos) else Failed out_of_range.

Definition bitset_reset (b : bitset) : bitset := 0%N.

(** A character is in the set when the test of its bit returns true. *)
Definition allowed (chars : bitset) (c : ascii) : Prop :=
  bitset_test chars (uchar c) = Returned true.

(** The state the module works on: the users, the file-level
    [validhostchars] and the [attributes] member of the command. *)
Record State := mkState {
  heap : Heap;
  validhostchars : bitset;
  attributes : flat_map Attribute
}.

Inductive CmdResult := CMD_FAILURE | CMD_SUCCESS.

Inductive Numeric := NoSuchNick (nick : string).

Inductive RouteDescriptor :=
| ROUTE_LOCALONLY
| ROUTE_BROADCAST
| ROUTE_UNICAST (dest : string).

(** What a dispatch does that can be seen from outside, and the calls it
    makes on the user and on the attribute, in order. *)
Inductive Event :=
| WriteNotice (user : UserPtr) (text : string)
| WriteNumeric (user : UserPtr) (numeric : Numeric)
| CallHasPrivPermission (user : UserPtr) (priv : string)
| CallSyntaxCheck (attrib : Attribute) (value : string)
| CallChangeValue (attrib : Attribute) (target : UserPtr) (value : string).

(* ================================================================== *)
(** * A state monad with a log and faults *)

Record Run (A : Type) := mkRun {
  outcome : Outcome A;
  after : State;
  events : list Event
}.

Definition M (A : Type) := State -> Run A.

Definition ret {A} (a : A) : M A :=
  fun st => mkRun (Returned a) st [].

Definition bind {A B} (m : M A) (k : A -> M B) : M B :=
  fun st =>
    let r := m st in
    match outcome r with
    | Returned a =>
        let r' := k a (after r) in
        mkRun (outcome r') (after r') (events r ++ events r')
    | Failed f => mkRun (Failed f) (after r) (events r)
    end.

Definition emit (e : Event) : M unit :=
  fun st => mkRun (Returned tt) st [e].

Definition get : M State :=
  fun st => mkRun (Returned st) st [].

Definition put_heap (h : Heap) : M unit :=
  fun st => mkRun (Returned tt) (mkState h (validhostchars st) (attributes st)) [].

Definition put_validhostchars (b : bitset) : M unit :=
  fun st => mkRun (Returned tt) (mkState (heap st) b (attributes st)) [].

Definition lift {A} (o : Outcome A) : M A :=
  fun st => mkRun o st [].

Declare Scope usermod_scope.
Delimit Scope usermod_scope with usermod.
Notation "x <- m ;; k" := (bind m (fun x => k))
  (at level 61, m at next level, right associativity) : usermod_scope.
Notation "m ;; k" := (bind m (fun _ => k))
  (at level 61, right associativity) : usermod_scope.
Local Open Scope usermod_scope.

(* ================================================================== *)
(** * The module *)

Section UserMod.

(** [national_case_insensitive_map], [ServerInstance] and the value of
    [REG_ALL] come from the rest of the server. *)
Variable casemap : ascii -> ascii.
Variable ServerInstance : InspIRCd.
Variable REG_ALL : N.

(** The loop of [HostAttribute::SyntaxCheck] over the characters of
    the value. *)
Fixpoint host_chars_ok (chars : bitset) (value : string) : Outcome bool :=
  match value with
  | EmptyString => Returned true
  | String c rest =>
      match bitset_test chars (uchar c) with
      | Returned b => if negb b then Returned false else host_chars_ok chars rest
      | Failed f => Failed f
      end
  end.

Definition HostAttribute_SyntaxCheck (chars : bitset) (value : string) : Outcome bool :=
  if (MaxHost (Limits ServerInstance) <? String.length value)%nat
  then Returned false
  else host_chars_ok chars value.

Definition NickAttribute_SyntaxCheck (value : string) : Outcome bool :=
  Returned (IsNick ServerInstance value).

Definition RealAttribute_SyntaxCheck (value : string) : Outcome bool :=
  Returned (String.length value <=? MaxReal (Limits ServerInstance))%nat.

Definition UserAttribute_SyntaxCheck (value : string) : Outcome bool :=
  if (IdentMax (Limits ServerInstance) <? String.length value)%nat
  then Returned false
  else Returned (IsIdent ServerInstance value).

(** [Attribute::SyntaxCheck], by the dynamic type of the attribute;
    [chars] is the current [validhostchars]. *)
Definition SyntaxCheck (attrib : Attribute) (chars : bitset) (value : string)
  : Outcome bool :=
  match attrib with
  | HostAttribute => HostAttribute_SyntaxCheck chars value
  | NickAttribute => NickAttribute_SyntaxCheck value
  | RealAttribute => RealAttribute_SyntaxCheck value
  | UserAttribute => UserAttribute_SyntaxCheck value
  end.

(** [Attribute::ChangeValue], by the dynamic type of the attribute, as
    the change it makes to the user. *)
Definition ChangeValue (attrib : Attribute) (value : string) : User -> User :=
  match attrib with
  | HostAttribute => ChangeDisplayedHost value
  | NickAttribute => ChangeNick value
  | RealAttribute => ChangeRealName value
  | UserAttribute => ChangeIdent value
  end.

(** [attrib->SyntaxCheck(value)] *)
Definition call_SyntaxCheck (attrib : Attribute) (value : string) : M bool :=
  emit (CallSyntaxCheck attrib value) ;;
  st <- get ;;
  lift (SyntaxCheck attrib (validhostchars st) value).

(** [attrib->ChangeValue(target, value)] *)
Definition call_ChangeValue (attrib : Attribute) (target : UserPtr) (value : string)
  : M unit :=
  emit (CallChangeValue attrib target value) ;;
  st <- get ;;
  put_heap (store target (ChangeValue attrib value (heap st target)) (heap st)).

(** [source->HasPrivPermission(priv)] *)
Definition call_HasPrivPermission (source : UserPtr) (priv : string) : M bool :=
  emit (CallHasPrivPermission source priv) ;;
  st <- get ;;
  ret (HasPrivPermission (heap st source) priv).

(** [CommandUserMod::ModifyUser] *)
Definition ModifyUser (source target : UserPtr) (attribute value : string)
  : M CmdResult :=
  st <- get ;;
  match find casemap attribute (attributes st) with
  | None =>
      emit (WriteNotice source
              ("*** USERMOD: " ++ attribute ++ " is not a valid user attribute!")) ;;
      ret CMD_FAILURE
  | Some attrib =>
      let priv :=
        Format "usermod/%s-%s"
               [attribute; if Nat.eqb source target then "self" else "others"] in
      permitted <- call_HasPrivPermission source priv ;;
      if negb permitted
      then
        emit (WriteNotice source
                (Format "*** USERMOD: The %s oper privilege is required to change %s's %s!"
                        [priv; nick (heap st target); attribute])) ;;
        ret CMD_FAILURE
      else
        checked <- call_SyntaxCheck attrib value ;;
        if checked
        then
          emit (WriteNotice source
                  ("*** USERMOD: The " ++ attribute ++ " you specified is not valid!")) ;;
          ret CMD_FAILURE
        else
          (if IS_LOCAL (heap st target)
           then call_ChangeValue attrib target value
           else ret tt) ;;
          ret CMD_SUCCESS
  end.

(** [parameters[i]]; the vector does not check the index. *)
Definition param (parameters : list string) (i : nat) : M string :=
  match nth_error parameters i with
  | Some p => ret p
  | None => lift (Failed out_of_bounds)
  end.

(** [CommandUserMod::Handle] *)
Definition Handle (user : UserPtr) (parameters : list string) : M CmdResult :=
  if Nat.eqb (List.length parameters) 2
  then
    p0 <- param parameters 0 ;;
    p1 <- param parameters 1 ;;
    ModifyUser user user p0 p1
  else
    p1 <- param parameters 1 ;;
    st <- get ;;
    match FindNick ServerInstance (heap st) p1 with
    | None =>
        emit (WriteNumeric user (NoSuchNick p1)) ;;
        ret CMD_FAILURE
    | Some target =>
        if negb (N.eqb (registered (heap st target)) REG_ALL)
        then
          emit (WriteNumeric user (NoSuchNick p1)) ;;
          ret CMD_FAILURE
        else
          p0 <- param parameters 0 ;;
          ModifyUser user target p0 p1
    end.

(** [CommandUserMod::GetRouting] *)
Definition GetRouting (user : UserPtr) (parameters : list string) : M RouteDescriptor :=
  if Nat.eqb (List.length parameters) 3
  then
    p1 <- param parameters 1 ;;
    ret (ROUTE_UNICAST p1)
  else
    st <- get ;;
    ret (ROUTE_UNICAST (nick (heap st user))).

(** The [attributes] member as the constructor of [CommandUserMod]
    leaves it. *)
Definition CommandUserMod_attributes : flat_map Attribute :=
  subscript_assign casemap "user" UserAttribute
    (subscript_assign casemap "real" RealAttribute
      (subscript_assign casemap "nick" NickAttribute
        (subscript_assign casemap "host" HostAttribute []))).

(** The loop of [ModuleUserMod::ReadConfig] that sets one bit of
    [validhostchars] for each character of the configured map. *)
Fixpoint set_hostchars (hostchars : string) : M unit :=
  match hostchars with
  | EmptyString => ret tt
  | String c rest =>
      st <- get ;;
      chars <- lift (bitset_set (validhostchars st) (uchar c)) ;;
      put_validhostchars chars ;;
      set_hostchars rest
  end.

(** [ModuleUserMod::ReadConfig], given the value the [hostname] tag has
    for [charmap] (the default when the tag has none). *)
Definition ReadConfig (hostchars : string) : M unit :=
  st <- get ;;
  put_validhostchars (bitset_reset (validhostchars st)) ;;
  set_hostchars hostchars.

Definition default_charmap : string :=
  "ABCDEFGHIJKLMNOPQRSTUVWXYZabcdefghijklmnopqrstuvwxyz.-_/0123456789".

End UserMod.

(* ================================================================== *)
(** * The privilege token as the specification words it *)

(** "usermod/<attribute>-<scope>", where the scope is "self" when actor
    and target are the same entity and "others" otherwise. *)
Definition PrivilegeToken (attribute : string) (actor target : UserPtr) : string :=
  "usermod/" ++ attribute ++ "-" ++ (if Nat.eq_dec actor target then "self" else "others").

(** The four names the constructor registers, each with its attribute. *)
Definition registered_attributes : list (string * Attribute) :=
  [("host", HostAttribute); ("nick", NickAttribute);
   ("real", RealAttribute); ("user", UserAttribute)].

(* ================================================================== *)
(** * A concrete server *)

Module Example.

(** The ASCII table: upper-case letters fold to lower case. *)
Definition ascii_case_insensitive_map (c : ascii) : ascii :=
  let n := N_of_ascii c in
  if ((65 <=? n) && (n <=? 90))%N then ascii_of_N (n + 32) else c.

Definition REG_ALL : N := 7.

Definition oper (privs : list string) (priv : string) : bool :=
  existsb (String.eqb priv) privs.

Definition alice : User :=
  mkUser "alice" "al" "alice.example" "Alice" 7 USERTYPE_LOCAL
         (oper ["usermod/host-self"; "usermod/host-others"; "usermod/real-others"]).

Definition bob : User :=
  mkUser "[bob]" "bob" "bob.example" "Bob" 7 USERTYPE_LOCAL (oper []).

Definition carol : User :=
  mkUser "carol|afk" "ca" "carol.example" "Carol" 7 USERTYPE_REMOTE (oper []).

Definition dave : User :=
  mkUser "dave" "da" "dave.example" "Dave" 3 USERTYPE_LOCAL (oper []).

Definition nobody : User :=
  mkUser EmptyString EmptyString EmptyString EmptyString 0 USERTYPE_SERVER (oper []).

Definition users : Heap :=
  store 1 alice (store 2 bob (store 3 carol (store 4 dave (fun _ => nobody)))).

(** A directory over the four addresses in use. *)
Definition directory (h : Heap) (name : string) : option UserPtr :=
  List.find (fun p => equivalent ascii_case_insensitive_map (nick (h p)) name)
            [1; 2; 3; 4].

Definition server : InspIRCd :=
  mkInspIRCd (mkLimits 64 128 10)
             (fun s => negb (String.eqb s EmptyString))
             (fun s => negb (String.eqb s EmptyString))
             directory.

Definition registry : flat_map Attribute :=
  CommandUserMod_attributes ascii_case_insensitive_map.

(** The state after the constructor and a [ReadConfig] with the default
    character map. *)
Definition initial : State :=
  after (ReadConfig default_charmap (mkState users 0%N registry)).

Definition handle := Handle ascii_case_insensitive_map server REG_ALL.
Definition modify := ModifyUser ascii_case_insensitive_map server.

End Example.

(* ================================================================== *)
(** * Reading the log *)

(** The events the user is sent: notices and numerics. *)
Definition is_output (e : Event) : bool :=
  match e with
  | WriteNotice _ _ | WriteNumeric _ _ => true
  | _ => false
  end.

Definition outputs (evs : list Event) : list Event := filter is_output evs.

(** The calls on the user and on the attribute, without what is sent. *)
Definition calls (evs : list Event) : list Event :=
  filter (fun e => negb (is_output e)) evs.

(** The user an event is sent to or called on; a [SyntaxCheck] is on no
    user. *)
Definition subject (e : Event) : option UserPtr :=
  match e with
  | WriteNotice u _ | WriteNumeric u _ | CallHasPrivPermission u _ => Some u
  | CallChangeValue _ u _ => Some u
  | CallSyntaxCheck _ _ => None
  end.

(** The character 255, the one [unsigned char] that has no bit in a
    [std::bitset<UCHAR_MAX>]. *)
Definition char255 : ascii := "255"%char.


(** The bitset with the bits of the characters of a string set in it,
    one after the other. *)
Fixpoint charset (hostchars : string) (chars : bitset) : bitset :=
  match hostchars with
  | EmptyString => chars
  | String c rest => charset rest (N.setbit chars (uchar c))
  end.


(* ================================================================== *)
(** * Facts about strings *)

Lemma uchar_inj (c d : ascii) : uchar c = uchar d -> c = d.
Proof.
  unfold uchar. intros E.
  rewrite <- (ascii_N_embedding c), <- (ascii_N_embedding d).
  now rewrite E.
Qed.

Lemma uchar_bound (c : ascii) : (uchar c < 256)%N.
Proof. apply N_ascii_bounded. Qed.

(** A string without NUL is its own C string. *)
Lemma c_str_no_NUL (s : string) : ~ InStr NUL s -> c_str s = s.
Proof.
  induction s as [|c rest IH]; simpl; intros H; [reflexivity|].
  destruct (Ascii.eqb_spec c NUL) as [->|_].
  - exfalso. apply H. now left.
  - f_equal. apply IH. intros I. apply H. now right.
Qed.

Lemma InStr_app (c : ascii) (a b : string) :
  InStr c (a ++ b) <-> InStr c a \/ InStr c b.
Proof.
  induction a as [|d a IH]; simpl; [tauto|]. rewrite IH. tauto.
Qed.

Lemma InStr_c_str (s : string) : ~ InStr NUL (c_str s).
Proof.
  induction s as [|c rest IH]; simpl; [tauto|].
  destruct (Ascii.eqb_spec c NUL) as [->|N']; simpl; [tauto|].
  intros [E|I]; [now apply N'|now apply IH].
Qed.

(* ================================================================== *)
(** * Facts about the ordering and the flat map *)

Section FlatMapFacts.

Variable casemap : ascii -> ascii.

Local Abbreviation swo := (insensitive_swo casemap).
Local Abbreviation equiv := (equivalent casemap).
Local Abbreviation fold := (fold_case casemap).

(** The ordering only looks at the folded strings. *)
Lemma swo_fold (a a' b b' : string) :
  fold a = fold a' -> fold b = fold b' -> swo a b = swo a' b'.
Proof.
  revert a' b b'.
  induction a as [|x a IH]; intros [|x' a'] [|y b] [|y' b'];
    simpl; try discriminate; try reflexivity.
  intros Ea Eb. injection Ea as Ex Ea. injection Eb as Ey Eb.
  rewrite Ex, Ey. now rewrite (IH a' b b').
Qed.

Lemma swo_irrefl (a : string) : swo a a = false.
Proof.
  induction a as [|x a IH]; simpl; [reflexivity|].
  now rewrite N.ltb_irrefl.
Qed.

(** Keys are equivalent exactly when they fold to the same string:
    equivalence is equality up to case. *)
Lemma equivalent_fold (a b : string) :
  equiv a b = true <-> fold a = fold b.
Proof.
  unfold equivalent. split.
  - revert b. induction a as [|x a IH]; intros [|y b]; simpl;
      try discriminate; try reflexivity.
    destruct (N.ltb_spec (uchar (casemap y)) (uchar (casemap x))) as [L1|L1];
      destruct (N.ltb_spec (uchar (casemap x)) (uchar (casemap y))) as [L2|L2];
      simpl; try discriminate; try lia.
    intros H. f_equal; [|now apply IH].
    apply uchar_inj. lia.
  - intros E.
    rewrite (swo_fold a b b b E eq_refl), (swo_fold b b a b eq_refl E).
    now rewrite swo_irrefl.
Qed.

Lemma equivalent_refl (a : string) : equiv a a = true.
Proof. now apply equivalent_fold. Qed.

Lemma equivalent_sym (a b : string) : equiv a b = equiv b a.
Proof. unfold equivalent. apply andb_comm. Qed.

(** Equivalent strings have the same length. *)
Lemma fold_length (a : string) : String.length (fold a) = String.length a.
Proof. induction a; simpl; congruence. Qed.

Lemma equivalent_length (a b : string) :
  equiv a b = true -> String.length a = String.length b.
Proof.
  intros E. apply equivalent_fold in E.
  now rewrite <- (fold_length a), E, fold_length.
Qed.

(** ** The vector stays sorted, and the last write wins *)

Lemma swo_trans (a b c : string) :
  swo a b = true -> swo b c = true -> swo a c = true.
Proof.
  revert b c.
  induction a as [|x a IH]; intros [|y b] [|z c]; simpl;
    try discriminate; try reflexivity.
  destruct (N.ltb_spec (uchar (casemap y)) (uchar (casemap x)));
    [discriminate|].
  destruct (N.ltb_spec (uchar (casemap z)) (uchar (casemap y)));
    [discriminate|].
  destruct (N.ltb_spec (uchar (casemap z)) (uchar (casemap x))); [lia|].
  destruct (N.ltb_spec (uchar (casemap x)) (uchar (casemap y)));
    destruct (N.ltb_spec (uchar (casemap y)) (uchar (casemap z)));
    destruct (N.ltb_spec (uchar (casemap x)) (uchar (casemap z)));
    try reflexivity; try lia.
  apply IH.
Qed.

Lemma swo_asym (a b : string) : swo a b = true -> swo b a = false.
Proof.
  intros H. destruct (swo b a) eqn:E; [|reflexivity].
  pose proof (swo_trans _ _ _ H E) as T. now rewrite swo_irrefl in T.
Qed.

Variable V : Type.
Implicit Types vect : flat_map V.

Lemma lower_bound_fold (x x' : string) vect :
  fold x = fold x' -> lower_bound casemap x vect = lower_bound casemap x' vect.
Proof.
  intros E. induction vect as [|[k v] rest IH]; simpl; [reflexivity|].
  rewrite (swo_fold k k x x' eq_refl E). now rewrite IH.
Qed.

(** Lookup does not tell equivalent names apart. *)
Lemma find_equivalent (x x' : string) vect :
  equiv x x' = true -> find casemap x vect = find casemap x' vect.
Proof.
  intros E. apply equivalent_fold in E. unfold find.
  rewrite (lower_bound_fold x x' vect E).
  destruct (snd (lower_bound casemap x' vect)) as [|[k v] ?]; [reflexivity|].
  now rewrite (swo_fold x x' k k E eq_refl).
Qed.

Lemma lower_bound_after (x : string) vect k v rest :
  snd (lower_bound casemap x vect) = (k, v) :: rest ->
  In (k, v) vect /\ swo k x = false.
Proof.
  induction vect as [|[k0 v0] vect IH]; simpl; [discriminate|].
  destruct (swo k0 x) eqn:L.
  - destruct (lower_bound casemap x vect) as [before aft]; simpl in *.
    intros E. destruct (IH E) as [I N']. split; [now right|exact N'].
  - simpl. intros E. injection E as E1 E2 E3. subst.
    split; [now left|exact L].
Qed.

(** A lookup that finds a value finds it under a key equivalent to the
    name that was looked up. *)
Lemma find_Some (x : string) vect (v : V) :
  find casemap x vect = Some v ->
  exists k, In (k, v) vect /\ equiv x k = true.
Proof.
  unfold find.
  destruct (snd (lower_bound casemap x vect)) as [|[k v'] rest] eqn:L;
    [discriminate|].
  destruct (lower_bound_after x vect L) as [I N'].
  destruct (swo x k) eqn:X; [discriminate|].
  intros E. injection E as <-.
  exists k. split; [exact I|].
  unfold equivalent. now rewrite X, N'.
Qed.


(** The two operations, one element at a time. *)
Lemma find_cons (x k : string) (v : V) vect :
  find casemap x ((k, v) :: vect)
  = if swo k x then find casemap x vect
    else if swo x k then None else Some v.
Proof.
  unfold find. simpl. destruct (swo k x); [|reflexivity].
  now destruct (lower_bound casemap x vect).
Qed.

Lemma subscript_assign_cons (x k : string) (v v' : V) vect :
  subscript_assign casemap x v ((k, v') :: vect)
  = if swo k x then (k, v') :: subscript_assign casemap x v vect
    else if swo x k then (x, v) :: (k, v') :: vect
    else (k, v) :: vect.
Proof.
  unfold subscript_assign. simpl. destruct (swo k x); [|reflexivity].
  destruct (lower_bound casemap x vect) as [before [|[k0 v0] rest]];
    [reflexivity|].
  now destruct (swo x k0).
Qed.

(** What was assigned under a name is what a lookup of the name finds. *)
Lemma find_subscript_assign (x : string) (v : V) vect :
  find casemap x (subscript_assign casemap x v vect) = Some v.
Proof.
  induction vect as [|[k v'] vect IH].
  - unfold subscript_assign. simpl. rewrite find_cons. now rewrite swo_irrefl.
  - rewrite subscript_assign_cons.
    destruct (swo k x) eqn:K; [now rewrite find_cons, K|].
    destruct (swo x k) eqn:X; rewrite find_cons.
    + now rewrite swo_irrefl.
    + now rewrite K, X.
Qed.

(** An assignment under a name changes no lookup of a name that is not
    equivalent to it. *)
Lemma find_subscript_assign_other (x y : string) (v : V) vect :
  equiv x y = false ->
  find casemap y (subscript_assign casemap x v vect) = find casemap y vect.
Proof.
  intros NE.
  assert (D : swo x y = false -> swo y x = false -> False).
  { intros A B. unfold equivalent in NE. rewrite A, B in NE. discriminate. }
  induction vect as [|[k v'] vect IH].
  - unfold subscript_assign. simpl. rewrite find_cons.
    destruct (swo x y) eqn:A; [reflexivity|].
    destruct (swo y x) eqn:B; [reflexivity|]. now destruct D.
  - rewrite subscript_assign_cons.
    destruct (swo k x) eqn:K.
    + rewrite !find_cons, IH. reflexivity.
    + destruct (swo x k) eqn:X.
      * rewrite (find_cons y x).
        destruct (swo x y) eqn:A; [reflexivity|].
        destruct (swo y x) eqn:B; [|now destruct D].
        rewrite find_cons.
        pose proof (swo_trans _ _ _ B X) as T.
        now rewrite (swo_asym _ _ T), T.
      * rewrite !find_cons.
        destruct (swo k y) eqn:A; [reflexivity|].
        destruct (swo y k) eqn:B; [reflexivity|].
        exfalso.
        assert (E1 : fold x = fold k)
          by (apply equivalent_fold; unfold equivalent; now rewrite X, K).
        assert (E2 : fold y = fold k)
          by (apply equivalent_fold; unfold equivalent; now rewrite A, B).
        assert (E : equiv x y = true)
          by (apply equivalent_fold; congruence).
        congruence.
Qed.

Lemma keys_subscript_assign (x k : string) (v : V) vect :
  In k (keys (subscript_assign casemap x v vect)) -> k = x \/ In k (keys vect).
Proof.
  induction vect as [|[k0 v0] vect IH].
  - unfold subscript_assign. simpl. intros [<-|[]]. now left.
  - rewrite subscript_assign_cons.
    destruct (swo k0 x); [|destruct (swo x k0)]; simpl.
    + intros [<-|I]; [right; now left|].
      destruct (IH I) as [->|I']; [now left|right; now right].
    + intros [<-|[<-|I]]; [now left|right; now left|right; now right].
    + tauto.
Qed.

(** The vector stays sorted under assignment. *)
Lemma subscript_assign_sorted (x : string) (v : V) vect :
  sorted casemap vect -> sorted casemap (subscript_assign casemap x v vect).
Proof.
  unfold sorted. induction vect as [|[k v'] vect IH]; intros S.
  - unfold subscript_assign. simpl. split; [intros k' []|exact I].
  - rewrite subscript_assign_cons. simpl in S. destruct S as [Sk S].
    destruct (swo k x) eqn:K; [|destruct (swo x k) eqn:X]; simpl.
    + split; [|now apply IH].
      intros k' I'. destruct (keys_subscript_assign _ _ _ _ I') as [->|I''];
        [exact K|now apply Sk].
    + split; [|now split].
      intros k' [<-|I']; [exact X|].
      apply swo_trans with (b := k); [exact X|now apply Sk].
    + now split.
Qed.

End FlatMapFacts.

(* ================================================================== *)
(** * Facts about the formatter *)

Lemma append_empty (s : string) : (s ++ EmptyString)%string = s.
Proof. induction s; simpl; congruence. Qed.

Lemma Format_priv (attribute scope : string) :
  Format "usermod/%s-%s" [attribute; scope]
  = ("usermod/" ++ c_str attribute ++ "-" ++ c_str scope)%string.
Proof. simpl. now rewrite append_empty. Qed.

Lemma Format_priv_notice (priv name attribute : string) :
  Format "*** USERMOD: The %s oper privilege is required to change %s's %s!"
         [priv; name; attribute]
  = ("*** USERMOD: The " ++ c_str priv ++ " oper privilege is required to change "
      ++ c_str name ++ "'s " ++ c_str attribute ++ "!")%string.
Proof. reflexivity. Qed.

(* ================================================================== *)
(** * Facts about the monad *)

Lemma run_eta A (r : Run A) : mkRun (outcome r) (after r) (events r) = r.
Proof. now destruct r. Qed.

Lemma bind_ret A B (a : A) (k : A -> M B) (st : State) :
  bind (ret a) k st = k a st.
Proof. unfold bind, ret. simpl. apply run_eta. Qed.

Lemma bind_get B (k : State -> M B) (st : State) :
  bind get k st = k st st.
Proof. unfold bind, get. simpl. apply run_eta. Qed.

(* ================================================================== *)
(** * Facts about the dispatch *)

Section UserModFacts.

Variable casemap : ascii -> ascii.
Variable ServerInstance : InspIRCd.
Variable REG_ALL : N.

Local Abbreviation ModifyUser' := (ModifyUser casemap ServerInstance).
Local Abbreviation Handle' := (Handle casemap ServerInstance REG_ALL).

(** The privilege [ModifyUser] asks for. *)
Local Abbreviation priv_of source target attribute :=
  (Format "usermod/%s-%s"
          [attribute; if Nat.eqb source target then "self" else "others"]).

(** ** [ModifyUser], path by path *)

Lemma ModifyUser_not_found st source target attribute value :
  find casemap attribute (attributes st) = None ->
  ModifyUser' source target attribute value st
  = mkRun (Returned CMD_FAILURE) st
      [WriteNotice source
         ("*** USERMOD: " ++ attribute ++ " is not a valid user attribute!")].
Proof.
  intros F. unfold ModifyUser, bind, get. simpl. now rewrite F.
Qed.

Lemma ModifyUser_no_priv st source target attribute value attrib :
  find casemap attribute (attributes st) = Some attrib ->
  HasPrivPermission (heap st source) (priv_of source target attribute) = false ->
  ModifyUser' source target attribute value st
  = mkRun (Returned CMD_FAILURE) st
      [CallHasPrivPermission source (priv_of source target attribute);
       WriteNotice source
         (Format "*** USERMOD: The %s oper privilege is required to change %s's %s!"
                 [priv_of source target attribute; nick (heap st target); attribute])].
Proof.
  intros F P. unfold ModifyUser, bind, get. cbn [outcome after events].
  rewrite F. unfold call_HasPrivPermission, bind, get, emit, ret.
  cbn [outcome after events]. now rewrite P.
Qed.

Lemma ModifyUser_checked st source target attribute value attrib :
  find casemap attribute (attributes st) = Some attrib ->
  HasPrivPermission (heap st source) (priv_of source target attribute) = true ->
  ModifyUser' source target attribute value st
  = match SyntaxCheck ServerInstance attrib (validhostchars st) value with
    | Returned true =>
        mkRun (Returned CMD_FAILURE) st
          [CallHasPrivPermission source (priv_of source target attribute);
           CallSyntaxCheck attrib value;
           WriteNotice source
             ("*** USERMOD: The " ++ attribute ++ " you specified is not valid!")]
    | Returned false =>
        if IS_LOCAL (heap st target)
        then
          mkRun (Returned CMD_SUCCESS)
            (mkState (store target (ChangeValue attrib value (heap st target)) (heap st))
                     (validhostchars st) (attributes st))
            [CallHasPrivPermission source (priv_of source target attribute);
             CallSyntaxCheck attrib value;
             CallChangeValue attrib target value]
        else
          mkRun (Returned CMD_SUCCESS) st
            [CallHasPrivPermission source (priv_of source target attribute);
             CallSyntaxCheck attrib value]
    | Failed f =>
        mkRun (Failed f) st
          [CallHasPrivPermission source (priv_of source target attribute);
           CallSyntaxCheck attrib value]
    end.
Proof.
  intros F P. unfold ModifyUser, bind, get. cbn [outcome after events].
  rewrite F. unfold call_HasPrivPermission, bind, get, emit, ret.
  cbn [outcome after events]. rewrite P. cbn [negb].
  unfold call_SyntaxCheck, bind, get, emit, lift. cbn [outcome after events].
  destruct (SyntaxCheck ServerInstance attrib (validhostchars st) value) as [[|]|f];
    cbn [outcome after events app]; try reflexivity.
  destruct (IS_LOCAL (heap st target)); reflexivity.
Qed.

(** ** [Handle], path by path *)

Lemma Handle_two st user p0 p1 :
  Handle' user [p0; p1] st = ModifyUser' user user p0 p1 st.
Proof.
  unfold Handle, param. cbn [List.length Nat.eqb nth_error].
  now rewrite !bind_ret.
Qed.

Lemma Handle_three_missing st user p0 p1 p2 :
  match FindNick ServerInstance (heap st) p1 with
  | None => True
  | Some target => registered (heap st target) <> REG_ALL
  end ->
  Handle' user [p0; p1; p2] st
  = mkRun (Returned CMD_FAILURE) st [WriteNumeric user (NoSuchNick p1)].
Proof.
  intros H. unfold Handle, param. cbn [List.length Nat.eqb nth_error].
  rewrite bind_ret, bind_get.
  destruct (FindNick ServerInstance (heap st) p1) as [target|]; [|reflexivity].
  apply N.eqb_neq in H. now rewrite H.
Qed.

Lemma Handle_three_found st user p0 p1 p2 target :
  FindNick ServerInstance (heap st) p1 = Some target ->
  registered (heap st target) = REG_ALL ->
  Handle' user [p0; p1; p2] st = ModifyUser' user target p0 p1 st.
Proof.
  intros F R. unfold Handle, param. cbn [List.length Nat.eqb nth_error].
  rewrite bind_ret, bind_get, F.
  apply N.eqb_eq in R. rewrite R. cbn [negb].
  now rewrite bind_ret.
Qed.

(** [Handle] either stops before [ModifyUser], leaving the state as it
    was and logging at most the numeric, or is one call of [ModifyUser]
    by [user]. *)
Lemma Handle_cases st user parameters :
  (after (Handle' user parameters st) = st /\
   forall e, In e (events (Handle' user parameters st)) ->
             exists name, e = WriteNumeric user (NoSuchNick name)) \/
  (exists target attribute value,
     Handle' user parameters st = ModifyUser' user target attribute value st).
Proof.
  unfold Handle, param.
  destruct (Nat.eqb (List.length parameters) 2) eqn:L.
  - right. apply Nat.eqb_eq in L.
    destruct parameters as [|p0 [|p1 [|? ?]]]; try discriminate.
    exists user, p0, p1. cbn [nth_error]. now rewrite !bind_ret.
  - destruct parameters as [|p0 [|p1 rest]]; cbn [nth_error].
    + left. split; [reflexivity|]. intros e [].
    + left. split; [reflexivity|]. intros e [].
    + rewrite bind_ret, bind_get.
      destruct (FindNick ServerInstance (heap st) p1) as [target|].
      * destruct (negb (N.eqb (registered (heap st target)) REG_ALL)).
        -- left. split; [reflexivity|].
           intros e [<-|[]]. now exists p1.
        -- right. exists target, p0, p1. now rewrite bind_ret.
      * left. split; [reflexivity|].
        intros e [<-|[]]. now exists p1.
Qed.

(** ** What [ModifyUser] leaves alone *)

(** Closes the frame conditions on a path that returns the state it was
    given and logs no [ChangeValue]. *)
Ltac effects_done :=
  cbn [after events];
  split; [reflexivity|]; split; [reflexivity|]; split; [|split];
  [ let H := fresh in
    intros ? ? ? H; cbn in H;
    repeat (destruct H as [H|H]; [discriminate|]); contradiction
  | reflexivity
  | reflexivity ].


(** The events of [ModifyUser] and the state after it, whatever path it
    takes: the only event that changes the state is a [ChangeValue] on a
    local [target], and [attributes] and [validhostchars] are never
    written. *)
Lemma ModifyUser_effects st source target attribute value :
  let r := ModifyUser' source target attribute value st in
  attributes (after r) = attributes st /\
  validhostchars (after r) = validhostchars st /\
  (forall attrib t v, In (CallChangeValue attrib t v) (events r) ->
     t = target /\ IS_LOCAL (heap st target) = true) /\
  (IS_LOCAL (heap st target) = false -> after r = st) /\
  (forall p, p <> target -> heap (after r) p = heap st p).
Proof.
  cbv zeta.
  destruct (find casemap attribute (attributes st)) as [attrib|] eqn:F.
  2:{ rewrite (ModifyUser_not_found _ _ _ _ _ F). effects_done. }
  destruct (HasPrivPermission (heap st source) (priv_of source target attribute)) eqn:P.
  2:{ rewrite (ModifyUser_no_priv _ _ _ _ _ F P). effects_done. }
  rewrite (ModifyUser_checked _ _ _ _ _ F P).
  destruct (SyntaxCheck ServerInstance attrib (validhostchars st) value) as [[|]|f];
    [effects_done| |effects_done].
  destruct (IS_LOCAL (heap st target)) eqn:L; [|effects_done].
  cbn [after events attributes validhostchars heap].
  split; [reflexivity|]. split; [reflexivity|]. split; [|split].
  - intros attrib' t v H. split; [|reflexivity].
    cbn in H. destruct H as [H|[H|[H|[]]]]; try discriminate. now injection H.
  - discriminate.
  - intros p Np. unfold store. apply Nat.eqb_neq in Np. now rewrite Np.
Qed.


(** ** [GetRouting] and the frame of [Handle] *)

Lemma GetRouting_three st user p0 p1 p2 :
  GetRouting user [p0; p1; p2] st = mkRun (Returned (ROUTE_UNICAST p1)) st [].
Proof. reflexivity. Qed.

Lemma GetRouting_other st user parameters :
  List.length parameters <> 3 ->
  GetRouting user parameters st
  = mkRun (Returned (ROUTE_UNICAST (nick (heap st user)))) st [].
Proof.
  intros L. unfold GetRouting. apply Nat.eqb_neq in L. now rewrite L.
Qed.

Lemma GetRouting_after st user parameters :
  after (GetRouting user parameters st) = st.
Proof.
  unfold GetRouting, param.
  destruct (Nat.eqb (List.length parameters) 3); [|reflexivity].
  destruct (nth_error parameters 1); reflexivity.
Qed.

Lemma Handle_attributes st user parameters :
  attributes (after (Handle' user parameters st)) = attributes st.
Proof.
  destruct (Handle_cases st user parameters) as [[-> _]|(t & a & v & ->)];
    [reflexivity|].
  apply ModifyUser_effects.
Qed.

(** ** The registry *)

(** Whatever the case table, the constructor leaves the vector sorted,
    as [lower_bound] needs it. *)
Lemma CommandUserMod_attributes_sorted :
  sorted casemap (CommandUserMod_attributes casemap).
Proof.
  unfold CommandUserMod_attributes.
  repeat apply subscript_assign_sorted. exact I.
Qed.

(** What is asked of the case table: it leaves the lower-case letters
    and NUL in place, as a table does that only folds upper case to
    lower case. *)
Hypothesis casemap_lower : forall c, (97 <= uchar c <= 122)%N -> casemap c = c.
Hypothesis casemap_NUL : casemap NUL = NUL.

Ltac fold_lower :=
  repeat (cbn; rewrite ?casemap_lower by (vm_compute; split; discriminate)).

Lemma CommandUserMod_attributes_eq :
  CommandUserMod_attributes casemap = registered_attributes.
Proof.
  unfold CommandUserMod_attributes, subscript_assign. now fold_lower.
Qed.


(** Every spelling of a registered name finds the attribute registered
    under it. *)
Lemma registry_find (name s : string) (attrib : Attribute) :
  In (name, attrib) registered_attributes ->
  equivalent casemap s name = true ->
  find casemap s (CommandUserMod_attributes casemap) = Some attrib.
Proof.
  intros I E. rewrite (find_equivalent _ _ _ _ E), CommandUserMod_attributes_eq.
  unfold find.
  destruct I as [I|[I|[I|[I|[]]]]]; injection I as <- <-; now fold_lower.
Qed.

(** Whatever a lookup finds, it finds under a spelling of one of the
    four names. *)
Lemma registry_find_inv (s : string) (attrib : Attribute) :
  find casemap s (CommandUserMod_attributes casemap) = Some attrib ->
  exists name,
    In (name, attrib) registered_attributes /\
    equivalent casemap s name = true.
Proof.
  intros F. apply find_Some in F. now rewrite CommandUserMod_attributes_eq in F.
Qed.

Lemma InStr_fold (c : ascii) (s : string) :
  InStr c s -> InStr (casemap c) (fold_case casemap s).
Proof.
  induction s as [|d s IH]; simpl; [tauto|].
  intros [->|I]; [now left|right; now apply IH].
Qed.

(** A name the registry knows has no NUL in it, so it is its own C
    string. *)
Lemma registry_find_no_NUL (s : string) :
  find casemap s (CommandUserMod_attributes casemap) <> None ->
  ~ InStr NUL s.
Proof.
  intros F I.
  destruct (find casemap s (CommandUserMod_attributes casemap)) as [attrib|] eqn:E;
    [|now apply F].
  destruct (registry_find_inv _ E) as (name & Hin & Heq).
  apply equivalent_fold in Heq.
  apply InStr_fold in I. rewrite Heq, casemap_NUL in I.
  destruct Hin as [H|[H|[H|[H|[]]]]]; injection H as <- _;
    revert I; fold_lower; unfold NUL; intuition discriminate.
Qed.


(** ** The validator of the host attribute *)

Lemma host_chars_ok_true (chars : bitset) (value : string) :
  host_chars_ok chars value = Returned true <->
  forall c, InStr c value -> allowed chars c.
Proof.
  unfold allowed. induction value as [|d rest IH]; simpl.
  - split; [intros _ c []|reflexivity].
  - destruct (bitset_test chars (uchar d)) as [[|]|f] eqn:T; simpl.
    + rewrite IH. split.
      * intros H c [->|I]; [exact T|now apply H].
      * intros H c I. apply H. now right.
    + split; [discriminate|].
      intros H. specialize (H d (or_introl eq_refl)). congruence.
    + split; [discriminate|].
      intros H. specialize (H d (or_introl eq_refl)). congruence.
Qed.

Lemma bitset_test_fault (chars : bitset) (pos : N) (f : Fault) :
  bitset_test chars pos = Failed f -> f = out_of_range /\ (UCHAR_MAX <= pos)%N.
Proof.
  unfold bitset_test. destruct (N.ltb_spec pos UCHAR_MAX); [discriminate|].
  intros E. injection E as <-. now split.
Qed.

(** The loop can only fail on the one character that has no bit. *)
Lemma host_chars_ok_fault (chars : bitset) (value : string) (f : Fault) :
  host_chars_ok chars value = Failed f ->
  f = out_of_range /\ InStr "255"%char value.
Proof.
  induction value as [|d rest IH]; simpl; [discriminate|].
  destruct (bitset_test chars (uchar d)) as [[|]|f'] eqn:T; simpl.
  - intros H. destruct (IH H) as [-> I]. split; [reflexivity|now right].
  - discriminate.
  - intros E. injection E as <-.
    destruct (bitset_test_fault _ _ T) as [-> B]. split; [reflexivity|left].
    pose proof (uchar_bound d) as U. unfold UCHAR_MAX in B.
    apply uchar_inj. change (uchar "255"%char) with 255%N. lia.
Qed.

(** ** [ReadConfig] *)

Lemma set_hostchars_allowed (hostchars : string) (st : State) :
  (forall c, InStr c hostchars -> uchar c <> 255%N) ->
  let r := set_hostchars hostchars st in
  outcome r = Returned tt /\
  heap (after r) = heap st /\
  attributes (after r) = attributes st /\
  forall c, allowed (validhostchars (after r)) c <->
            allowed (validhostchars st) c \/ InStr c hostchars.
Proof.
  revert st. induction hostchars as [|d rest IH]; intros st H; cbv zeta.
  - simpl. repeat split; tauto.
  - assert (B : (uchar d <? UCHAR_MAX)%N = true).
    { apply N.ltb_lt. pose proof (uchar_bound d).
      specialize (H d (or_introl eq_refl)). unfold UCHAR_MAX. lia. }
    cbn [set_hostchars]. rewrite bind_get.
    unfold bind at 1, lift, bitset_set. rewrite B. cbn [outcome after events].
    unfold bind at 1, put_validhostchars. cbn [outcome after events].
    specialize (IH (mkState (heap st) (N.setbit (validhostchars st) (uchar d))
                            (attributes st))
                   (fun c I => H c (or_intror I))).
    cbv zeta in IH. destruct IH as (O & Hh & Ha & Hc).
    cbn [heap attributes validhostchars] in *.
    repeat split; try assumption.
    + intros A. apply Hc in A. destruct A as [A|A]; [|right; now right].
      unfold allowed, bitset_test in *.
      destruct (uchar c <? UCHAR_MAX)%N; [|discriminate].
      injection A as A. apply N.setbit_iff in A.
      destruct A as [A|A]; [right; left; symmetry; now apply uchar_inj|left; now rewrite A].
    + intros A. apply Hc. destruct A as [A|[->|A]]; [left|left|now right].
      * unfold allowed, bitset_test in *.
        destruct (uchar c <? UCHAR_MAX)%N; [|discriminate].
        injection A as A. f_equal. apply N.setbit_iff. now right.
      * unfold allowed, bitset_test. rewrite B. f_equal.
        apply N.setbit_iff. now left.
Qed.

(** After a [ReadConfig] the allowed characters are the configured
    ones (a map with the character 255 in it makes the bitset throw). *)
Lemma ReadConfig_allowed (hostchars : string) (st : State) :
  (forall c, InStr c hostchars -> uchar c <> 255%N) ->
  let r := ReadConfig hostchars st in
  outcome r = Returned tt /\
  heap (after r) = heap st /\
  attributes (after r) = attributes st /\
  forall c, allowed (validhostchars (after r)) c <-> InStr c hostchars.
Proof.
  intros H. cbv zeta. unfold ReadConfig. rewrite bind_get.
  unfold bind at 1, put_validhostchars. cbn [outcome after events].
  destruct (set_hostchars_allowed hostchars
              (mkState (heap st) (bitset_reset (validhostchars st)) (attributes st)) H)
    as (O & Hh & Ha & Hc).
  cbn [heap attributes validhostchars app] in *.
  repeat split; try assumption.
  - intros A. apply Hc in A. destruct A as [A|A]; [|exact A].
    unfold allowed, bitset_test, bitset_reset in A.
    destruct (uchar c <? UCHAR_MAX)%N; [|discriminate].
    rewrite N.bits_0 in A. discriminate.
  - intros A. apply Hc. now right.
Qed.

(** ** The claims about the dispatch *)

(** C3: the mutator is called only on a locally owned target.  In
    [ModifyUser] every [ChangeValue] in the log is on [target] and
    [target] is local, and a remote [target] leaves every user as it
    was; in [Handle], whatever the parameters, every [ChangeValue] in the
    log is on a local user and no user that is not local changes. *)
Theorem ChangeValue_only_on_local_target
  st source target attribute value user parameters :
  (let r := ModifyUser' source target attribute value st in
   (forall attrib t v, In (CallChangeValue attrib t v) (events r) ->
      t = target /\ IS_LOCAL (heap st target) = true) /\
   (IS_LOCAL (heap st target) = false -> heap (after r) = heap st)) /\
  (let r := Handle' user parameters st in
   (forall attrib t v, In (CallChangeValue attrib t v) (events r) ->
      IS_LOCAL (heap st t) = true) /\
   (forall p, IS_LOCAL (heap st p) = false -> heap (after r) p = heap st p)).
Proof.
  cbv zeta. split.
  - destruct (ModifyUser_effects st source target attribute value)
      as (_ & _ & Hev & Hrem & _).
    split; [exact Hev|]. intros L. now rewrite (Hrem L).
  - destruct (Handle_cases st user parameters) as [[E Hev]|(t & a & v & ->)].
    + split.
      * intros attrib t v I. destruct (Hev _ I) as [name N']. discriminate.
      * intros p _. now rewrite E.
    + destruct (ModifyUser_effects st user t a v) as (_ & _ & Hev & Hrem & Hoth).
      split.
      * intros attrib t' v' I. destruct (Hev _ _ _ I) as [-> L]. exact L.
      * intros p L. destruct (Nat.eq_dec p t) as [->|Np].
        -- now rewrite (Hrem L).
        -- now apply Hoth.
Qed.

(** C5: a name the registry does not know makes the dispatch fail with
    the one notice that names it; the state is the one it was given and
    nothing else is logged: no privilege is asked for, no value is
    checked, no user is changed.  This is so for [ModifyUser], for
    [Handle] with two parameters, and for [Handle] with three parameters
    once the target is resolved. *)
Theorem unknown_attribute_fails st source target attribute value :
  find casemap attribute (attributes st) = None ->
  ModifyUser' source target attribute value st
  = mkRun (Returned CMD_FAILURE) st
      [WriteNotice source
         ("*** USERMOD: " ++ attribute ++ " is not a valid user attribute!")] /\
  Handle' source [attribute; value] st
  = mkRun (Returned CMD_FAILURE) st
      [WriteNotice source
         ("*** USERMOD: " ++ attribute ++ " is not a valid user attribute!")] /\
  (forall p1 p2,
     FindNick ServerInstance (heap st) p1 = Some target ->
     registered (heap st target) = REG_ALL ->
     Handle' source [attribute; p1; p2] st
     = mkRun (Returned CMD_FAILURE) st
         [WriteNotice source
            ("*** USERMOD: " ++ attribute ++ " is not a valid user attribute!")]).
Proof.
  intros F. split; [|split].
  - now apply ModifyUser_not_found.
  - rewrite Handle_two. now apply ModifyUser_not_found.
  - intros p1 p2 T R. rewrite (Handle_three_found _ _ _ _ _ T R).
    now apply ModifyUser_not_found.
Qed.

(** C6: with three parameters, a second parameter that names nobody, or
    somebody who is not fully registered, makes [Handle] fail with the
    no-such-nick numeric for that parameter; the state is the one it was
    given and nothing else is logged. *)
Theorem no_such_nick_fails st user p0 p1 p2 :
  (FindNick ServerInstance (heap st) p1 = None \/
   exists target,
     FindNick ServerInstance (heap st) p1 = Some target /\
     registered (heap st target) <> REG_ALL) ->
  Handle' user [p0; p1; p2] st
  = mkRun (Returned CMD_FAILURE) st [WriteNumeric user (NoSuchNick p1)].
Proof.
  intros H. apply Handle_three_missing.
  destruct H as [->|(target & -> & R)]; [exact I|exact R].
Qed.

(** C7: the validator of the host attribute returns true exactly when
    the value is no longer than [MaxHost] and every character of it is in
    [validhostchars]; a value that is too long is refused whatever its
    characters, and a value with a character outside the set is never
    accepted (it is refused, or the test of the bit throws). *)
Theorem HostAttribute_SyntaxCheck_spec chars value :
  (HostAttribute_SyntaxCheck ServerInstance chars value = Returned true <->
   String.length value <= MaxHost (Limits ServerInstance) /\
   forall c, InStr c value -> allowed chars c) /\
  (MaxHost (Limits ServerInstance) < String.length value ->
   HostAttribute_SyntaxCheck ServerInstance chars value = Returned false) /\
  ((exists c, InStr c value /\ ~ allowed chars c) ->
   HostAttribute_SyntaxCheck ServerInstance chars value = Returned false \/
   HostAttribute_SyntaxCheck ServerInstance chars value = Failed out_of_range).
Proof.
  unfold HostAttribute_SyntaxCheck.
  destruct (Nat.ltb_spec (MaxHost (Limits ServerInstance)) (String.length value))
    as [L|L].
  - split; [|split].
    + split; [discriminate|]. intros [H _]. lia.
    + reflexivity.
    + now left.
  - split; [|split].
    + rewrite host_chars_ok_true. split; [now split|tauto].
    + lia.
    + intros (c & I & NA).
      destruct (host_chars_ok chars value) as [[|]|f] eqn:E.
      * exfalso. apply NA. now apply (proj1 (host_chars_ok_true chars value) E).
      * now left.
      * right. now destruct (host_chars_ok_fault _ _ E) as [-> _].
Qed.

(** C8: [GetRouting] routes unicast to the second parameter when there
    are three parameters and to the nickname of the user when there are
    two; it changes nothing and logs nothing. *)
Theorem GetRouting_destination st user :
  (forall p0 p1 p2,
     GetRouting user [p0; p1; p2] st
     = mkRun (Returned (ROUTE_UNICAST p1)) st []) /\
  (forall p0 p1,
     GetRouting user [p0; p1] st
     = mkRun (Returned (ROUTE_UNICAST (nick (heap st user)))) st []).
Proof.
  split; intros; [apply GetRouting_three|now apply GetRouting_other].
Qed.


(** ** The privilege *)

Lemma PrivilegeToken_no_NUL (attribute : string) (source target : UserPtr) :
  ~ InStr NUL attribute -> ~ InStr NUL (PrivilegeToken attribute source target).
Proof.
  intros N' I. unfold PrivilegeToken in I.
  apply (InStr_app NUL "usermod/") in I. destruct I as [I|I].
  { simpl in I. unfold NUL in I. intuition discriminate. }
  apply InStr_app in I. destruct I as [I|I]; [now apply N'|].
  destruct (Nat.eq_dec source target); simpl in I; unfold NUL in I;
    intuition discriminate.
Qed.

(** On a name without NUL the formatted privilege is the token of the
    specification. *)
Lemma priv_of_PrivilegeToken (attribute : string) (source target : UserPtr) :
  ~ InStr NUL attribute ->
  priv_of source target attribute = PrivilegeToken attribute source target.
Proof.
  intros N'. rewrite Format_priv, (c_str_no_NUL _ N'). unfold PrivilegeToken.
  destruct (Nat.eqb_spec source target) as [E|E];
    destruct (Nat.eq_dec source target); try contradiction; reflexivity.
Qed.

(** C4: once the attribute is found, the first thing [ModifyUser] does
    is ask the actor for the privilege "usermod/<attribute>-self" when
    actor and target are the same user and "usermod/<attribute>-others"
    otherwise; without it the command fails with the one notice that
    names this privilege, the target and the attribute, the state is the
    one it was given, and no value is checked and no user is changed. *)
Theorem privilege_token_checked st source target attribute value :
  attributes st = CommandUserMod_attributes casemap ->
  find casemap attribute (attributes st) <> None ->
  let priv := PrivilegeToken attribute source target in
  let r := ModifyUser' source target attribute value st in
  (source = target -> priv = ("usermod/" ++ attribute ++ "-self")%string) /\
  (source <> target -> priv = ("usermod/" ++ attribute ++ "-others")%string) /\
  hd_error (events r) = Some (CallHasPrivPermission source priv) /\
  (HasPrivPermission (heap st source) priv = false ->
   r = mkRun (Returned CMD_FAILURE) st
         [CallHasPrivPermission source priv;
          WriteNotice source
            ("*** USERMOD: The " ++ priv
               ++ " oper privilege is required to change "
               ++ c_str (nick (heap st target)) ++ "'s " ++ attribute ++ "!")]).
Proof.
  intros A F. cbv zeta.
  assert (N' : ~ InStr NUL attribute).
  { apply registry_find_no_NUL. now rewrite <- A. }
  destruct (find casemap attribute (attributes st)) as [attrib|] eqn:E;
    [clear F|now contradiction F].
  split; [|split; [|split]].
  - intros ->. unfold PrivilegeToken.
    destruct (Nat.eq_dec target target); [reflexivity|contradiction].
  - intros D. unfold PrivilegeToken.
    destruct (Nat.eq_dec source target); [contradiction|reflexivity].
  - destruct (HasPrivPermission (heap st source) (priv_of source target attribute))
      eqn:P.
    + rewrite (ModifyUser_checked _ _ _ _ _ E P), (@priv_of_PrivilegeToken attribute source target N').
      destruct (SyntaxCheck ServerInstance attrib (validhostchars st) value)
        as [[|]|f]; try reflexivity.
      destruct (IS_LOCAL (heap st target)); reflexivity.
    + rewrite (ModifyUser_no_priv _ _ _ _ _ E P), (@priv_of_PrivilegeToken attribute source target N').
      reflexivity.
  - intros P. rewrite <- (@priv_of_PrivilegeToken attribute source target N') in P.
    rewrite (ModifyUser_no_priv _ _ _ _ _ E P), Format_priv_notice.
    rewrite (@priv_of_PrivilegeToken attribute source target N').
    rewrite (c_str_no_NUL _ (@PrivilegeToken_no_NUL attribute source target N')), (c_str_no_NUL _ N').
    reflexivity.
Qed.

(** C9: every spelling of one of the four registered names, that is,
    every string equivalent to it under the case-insensitive ordering,
    finds the attribute registered under that name, as the name itself
    does; and a lookup that finds an attribute was given a string
    equivalent to the name it is registered under, of the same length and
    equal to it once case is folded. *)
Theorem registry_lookup_case_insensitive :
  (forall name attrib s,
     In (name, attrib) registered_attributes ->
     equivalent casemap s name = true ->
     find casemap s (CommandUserMod_attributes casemap) = Some attrib /\
     find casemap s (CommandUserMod_attributes casemap)
     = find casemap name (CommandUserMod_attributes casemap)) /\
  (forall s attrib,
     find casemap s (CommandUserMod_attributes casemap) = Some attrib ->
     exists name,
       In (name, attrib) registered_attributes /\
       equivalent casemap s name = true /\
       String.length s = String.length name /\
       fold_case casemap s = fold_case casemap name).
Proof.
  split.
  - intros name attrib s I E. split.
    + now apply registry_find with (name := name).
    + now apply find_equivalent.
  - intros s attrib F.
    destruct (registry_find_inv _ F) as (name & I & E).
    exists name. repeat split; try assumption.
    + now apply equivalent_length with (casemap := casemap).
    + now apply equivalent_fold.
Qed.

(** C10: the constructor leaves exactly the four attributes in the
    registry, under host, nick, real and user, and [Handle], [ModifyUser]
    and [GetRouting] return with the registry they were given, so the
    same names are found before and after. *)
Theorem registry_is_invariant st user parameters source target attribute value :
  CommandUserMod_attributes casemap = registered_attributes /\
  attributes (after (Handle' user parameters st)) = attributes st /\
  attributes (after (ModifyUser' source target attribute value st)) = attributes st /\
  attributes (after (GetRouting user parameters st)) = attributes st /\
  (forall s,
     find casemap s (attributes (after (Handle' user parameters st)))
     = find casemap s (attributes st)).
Proof.
  split; [apply CommandUserMod_attributes_eq|].
  split; [apply Handle_attributes|].
  split; [apply ModifyUser_effects|].
  split; [now rewrite GetRouting_after|].
  intros s. now rewrite Handle_attributes.
Qed.

End UserModFacts.

(* ================================================================== *)
(** * More about [ReadConfig] and the validators *)

Section ConfigFacts.

Variable ServerInstance : InspIRCd.

Lemma char255_uchar (c : ascii) : uchar c = 255%N <-> c = char255.
Proof.
  split; [intros E; apply uchar_inj; exact E|intros ->; reflexivity].
Qed.

Lemma uchar_below (c : ascii) : c <> char255 -> (uchar c <? UCHAR_MAX)%N = true.
Proof.
  intros N'. apply N.ltb_lt. pose proof (uchar_bound c) as B.
  assert (uchar c <> 255%N) by (intros E; now apply N', char255_uchar).
  unfold UCHAR_MAX. lia.
Qed.

(** One turn of the loop of [ReadConfig]. *)
Lemma set_hostchars_cons (d : ascii) (rest : string) (st : State) :
  d <> char255 ->
  set_hostchars (String d rest) st
  = set_hostchars rest
      (mkState (heap st) (N.setbit (validhostchars st) (uchar d)) (attributes st)).
Proof.
  intros N'. cbn [set_hostchars]. rewrite bind_get.
  unfold bind, lift, bitset_set, put_validhostchars. rewrite (uchar_below N').
  cbn [outcome after events app heap attributes].
  apply run_eta.
Qed.

Lemma set_hostchars_char255 (rest : string) (st : State) :
  set_hostchars (String char255 rest) st = mkRun (Failed out_of_range) st [].
Proof. reflexivity. Qed.

(** The loop runs through a prefix without the character 255 and sets
    its bits. *)
Lemma set_hostchars_app (pre rest : string) (st : State) :
  ~ InStr char255 pre ->
  set_hostchars (pre ++ rest) st
  = set_hostchars rest
      (mkState (heap st) (charset pre (validhostchars st)) (attributes st)).
Proof.
  revert st. induction pre as [|d pre IH]; intros st H.
  - simpl. now destruct st.
  - cbn [append]. rewrite set_hostchars_cons.
    + rewrite IH; [reflexivity|]. intros I. apply H. now right.
    + intros ->. apply H. now left.
Qed.

Lemma ReadConfig_set_hostchars (hostchars : string) (st : State) :
  ReadConfig hostchars st
  = set_hostchars hostchars
      (mkState (heap st) (bitset_reset (validhostchars st)) (attributes st)).
Proof.
  unfold ReadConfig. rewrite bind_get.
  unfold bind, put_validhostchars. cbn [outcome after events app heap attributes].
  apply run_eta.
Qed.

(** The run of [ReadConfig] on a map without the character 255. *)
Lemma ReadConfig_run (hostchars : string) (st : State) :
  ~ InStr char255 hostchars ->
  ReadConfig hostchars st
  = mkRun (Returned tt) (mkState (heap st) (charset hostchars 0%N) (attributes st)) [].
Proof.
  intros H. rewrite ReadConfig_set_hostchars.
  rewrite <- (append_empty hostchars) at 1.
  now rewrite set_hostchars_app.
Qed.

(** The bits of [charset]: those there were and those of the
    characters. *)
Lemma charset_testbit (hostchars : string) (chars : bitset) (n : N) :
  N.testbit (charset hostchars chars) n = true <->
  N.testbit chars n = true \/ exists c, InStr c hostchars /\ uchar c = n.
Proof.
  revert chars. induction hostchars as [|d rest IH]; intros chars; simpl.
  - split; [now left|]. intros [H|(c & [] & _)]. exact H.
  - rewrite IH, N.setbit_iff. split.
    + intros [[E|H]|(c & I & E)].
      * right. exists d. split; [now left|exact E].
      * now left.
      * right. exists c. split; [now right|exact E].
    + intros [H|(c & [->|I] & E)].
      * left. now right.
      * left. now left.
      * right. now exists c.
Qed.

Lemma charset_allowed (hostchars : string) (c : ascii) :
  ~ InStr char255 hostchars ->
  allowed (charset hostchars 0%N) c <-> InStr c hostchars.
Proof.
  intros H. unfold allowed, bitset_test. split.
  - destruct (uchar c <? UCHAR_MAX)%N; [|discriminate].
    intros E. injection E as E. apply charset_testbit in E.
    destruct E as [E|(d & I & E)]; [now rewrite N.bits_0 in E|].
    apply uchar_inj in E. now subst d.
  - intros I. rewrite uchar_below.
    + f_equal. apply charset_testbit. right. now exists c.
    + intros ->. now apply H.
Qed.

(** Maps with the same characters give the same bitset. *)
Lemma charset_same_characters (a b : string) :
  (forall c, InStr c a <-> InStr c b) -> charset a 0%N = charset b 0%N.
Proof.
  intros H. apply N.bits_inj. intros n.
  destruct (N.testbit (charset a 0%N) n) eqn:A.
  - symmetry. apply charset_testbit. apply charset_testbit in A.
    destruct A as [A|(c & I & E)]; [now left|right].
    exists c. split; [now apply H|exact E].
  - destruct (N.testbit (charset b 0%N) n) eqn:B; [|reflexivity].
    apply charset_testbit in B.
    assert (N.testbit (charset a 0%N) n = true) as A'.
    { apply charset_testbit.
      destruct B as [B|(c & I & E)]; [now left|right].
      exists c. split; [now apply H|exact E]. }
    congruence.
Qed.

Lemma host_chars_ok_Failed (chars : bitset) (value : string) (f : Fault) :
  host_chars_ok chars value = Failed f <->
  f = out_of_range /\
  exists pre post,
    value = (pre ++ String char255 post)%string /\
    forall c, InStr c pre -> allowed chars c.
Proof.
  split.
  - induction value as [|d rest IH]; simpl; [discriminate|].
    destruct (bitset_test chars (uchar d)) as [[|]|f'] eqn:T; simpl.
    + intros H. destruct (IH H) as (-> & pre & post & -> & A).
      split; [reflexivity|]. exists (String d pre), post.
      split; [reflexivity|]. intros c [->|I]; [exact T|now apply A].
    + discriminate.
    + intros E. injection E as <-.
      destruct (bitset_test_fault _ _ T) as [-> B]. split; [reflexivity|].
      exists EmptyString, rest. split; [|intros c []].
      simpl. f_equal. apply char255_uchar.
      pose proof (uchar_bound d). unfold UCHAR_MAX in B. lia.
  - intros (-> & pre & post & -> & A).
    induction pre as [|d pre IH]; [reflexivity|].
    cbn [append host_chars_ok].
    rewrite (A d (or_introl eq_refl)). cbn [negb].
    apply IH. intros c I. apply A. now right.
Qed.

(** ** What the configuration does to the host check *)

(** X1: after [ReadConfig] on a map without the character 255 the allowed
    characters are those of the map, and the host check accepts the
    values within [MaxHost] made of them; the users and the registry are
    as they were. *)
Theorem ReadConfig_configures_host_check (hostchars value : string) (st : State) :
  ~ InStr char255 hostchars ->
  let r := ReadConfig hostchars st in
  outcome r = Returned tt /\
  events r = [] /\
  heap (after r) = heap st /\
  attributes (after r) = attributes st /\
  (forall c, allowed (validhostchars (after r)) c <-> InStr c hostchars) /\
  (HostAttribute_SyntaxCheck ServerInstance (validhostchars (after r)) value
   = Returned true <->
   String.length value <= MaxHost (Limits ServerInstance) /\
   forall c, InStr c value -> InStr c hostchars).
Proof.
  intros H. cbv zeta. rewrite (@ReadConfig_run hostchars st H).
  cbn [outcome events after heap attributes validhostchars].
  repeat (split; [reflexivity|]).
  split; [intros c; now apply charset_allowed|].
  unfold HostAttribute_SyntaxCheck.
  destruct (Nat.ltb_spec (MaxHost (Limits ServerInstance)) (String.length value))
    as [L|L].
  - split; [discriminate|]. intros [L' _]. lia.
  - rewrite host_chars_ok_true. split.
    + intros A. split; [exact L|].
      intros c I. now apply (@charset_allowed hostchars c H), A.
    + intros [_ A] c I. now apply (@charset_allowed hostchars c H), A.
Qed.

(** X2: [ReadConfig] builds the set anew and from the characters alone: two
    maps with the same characters, in any order and with any
    repetition, leave the same state behind, whatever set there was
    before. *)
Theorem ReadConfig_same_characters (a b : string) (st st' : State) :
  ~ InStr char255 a ->
  (forall c, InStr c a <-> InStr c b) ->
  heap st = heap st' ->
  attributes st = attributes st' ->
  ReadConfig a st = ReadConfig b st'.
Proof.
  intros Ha E Hh Hat.
  assert (Hb : ~ InStr char255 b) by (intros I; now apply Ha, E).
  rewrite (@ReadConfig_run a st Ha), (@ReadConfig_run b st' Hb).
  now rewrite (charset_same_characters a b E), Hh, Hat.
Qed.

(** X3: a map with the character 255 in it makes [ReadConfig] throw at its
    first occurrence: the set that was there is lost and only the
    characters before that occurrence are allowed. *)
Theorem ReadConfig_char255 (pre post : string) (st : State) :
  ~ InStr char255 pre ->
  let r := ReadConfig (pre ++ String char255 post) st in
  outcome r = Failed out_of_range /\
  events r = [] /\
  heap (after r) = heap st /\
  attributes (after r) = attributes st /\
  forall c, allowed (validhostchars (after r)) c <-> InStr c pre.
Proof.
  intros H. cbv zeta.
  rewrite ReadConfig_set_hostchars, (@set_hostchars_app pre _ _ H), set_hostchars_char255.
  cbn [outcome events after heap attributes validhostchars].
  repeat (split; [reflexivity|]).
  intros c. now apply charset_allowed.
Qed.

(** X4: the host check throws exactly on a value within [MaxHost] in which
    the character 255 comes after allowed characters only; on a value
    without that character it returns. *)
Theorem HostAttribute_SyntaxCheck_throws (chars : bitset) (value : string) :
  (forall f,
     HostAttribute_SyntaxCheck ServerInstance chars value = Failed f <->
     f = out_of_range /\
     String.length value <= MaxHost (Limits ServerInstance) /\
     exists pre post,
       value = (pre ++ String char255 post)%string /\
       forall c, InStr c pre -> allowed chars c) /\
  (~ InStr char255 value ->
   exists b, HostAttribute_SyntaxCheck ServerInstance chars value = Returned b).
Proof.
  unfold HostAttribute_SyntaxCheck.
  destruct (Nat.ltb_spec (MaxHost (Limits ServerInstance)) (String.length value))
    as [L|L].
  - split.
    + intros f. split; [discriminate|]. intros (_ & L' & _). lia.
    + intros _. now exists false.
  - split.
    + intros f. rewrite host_chars_ok_Failed. tauto.
    + intros H. destruct (host_chars_ok chars value) as [b|f] eqn:E;
        [now exists b|].
      exfalso. apply H. now destruct (host_chars_ok_fault _ _ E).
Qed.


End ConfigFacts.


(* ================================================================== *)
(** * More about the dispatch *)

Section DispatchFacts.

Variable casemap : ascii -> ascii.
Variable ServerInstance : InspIRCd.
Variable REG_ALL : N.

Local Abbreviation ModifyUser' := (ModifyUser casemap ServerInstance).
Local Abbreviation Handle' := (Handle casemap ServerInstance REG_ALL).
Local Abbreviation priv_of source target attribute :=
  (Format "usermod/%s-%s"
          [attribute; if Nat.eqb source target then "self" else "others"]).

(** The privilege as a string: the name is read as a C string. *)
Lemma priv_of_string (source target : UserPtr) (attribute : string) :
  priv_of source target attribute
  = ("usermod/" ++ c_str attribute
       ++ (if Nat.eq_dec source target then "-self" else "-others"))%string.
Proof.
  rewrite Format_priv.
  destruct (Nat.eqb_spec source target); destruct (Nat.eq_dec source target);
    try contradiction; reflexivity.
Qed.

(** The six ways through [ModifyUser]. *)
Lemma ModifyUser_paths st source target attribute value :
  let r := ModifyUser' source target attribute value st in
  let priv := priv_of source target attribute in
  (find casemap attribute (attributes st) = None /\
   exists text, r = mkRun (Returned CMD_FAILURE) st [WriteNotice source text]) \/
  exists attrib,
    find casemap attribute (attributes st) = Some attrib /\
    ((HasPrivPermission (heap st source) priv = false /\
      exists text,
        r = mkRun (Returned CMD_FAILURE) st
              [CallHasPrivPermission source priv; WriteNotice source text]) \/
     (HasPrivPermission (heap st source) priv = true /\
      ((SyntaxCheck ServerInstance attrib (validhostchars st) value = Returned true /\
        exists text,
          r = mkRun (Returned CMD_FAILURE) st
                [CallHasPrivPermission source priv;
                 CallSyntaxCheck attrib value;
                 WriteNotice source text]) \/
       (SyntaxCheck ServerInstance attrib (validhostchars st) value = Returned false /\
        IS_LOCAL (heap st target) = true /\
        r = mkRun (Returned CMD_SUCCESS)
              (mkState (store target (ChangeValue attrib value (heap st target))
                              (heap st))
                       (validhostchars st) (attributes st))
              [CallHasPrivPermission source priv;
               CallSyntaxCheck attrib value;
               CallChangeValue attrib target value]) \/
       (SyntaxCheck ServerInstance attrib (validhostchars st) value = Returned false /\
        IS_LOCAL (heap st target) = false /\
        r = mkRun (Returned CMD_SUCCESS) st
              [CallHasPrivPermission source priv;
               CallSyntaxCheck attrib value]) \/
       (exists f,
          SyntaxCheck ServerInstance attrib (validhostchars st) value = Failed f /\
          r = mkRun (Failed f) st
                [CallHasPrivPermission source priv;
                 CallSyntaxCheck attrib value])))).
Proof.
  cbv zeta.
  destruct (find casemap attribute (attributes st)) as [attrib|] eqn:F.
  2:{ left. split; [reflexivity|]. eexists.
      now apply ModifyUser_not_found. }
  right. exists attrib. split; [reflexivity|].
  destruct (HasPrivPermission (heap st source) (priv_of source target attribute))
    eqn:P.
  2:{ left. split; [reflexivity|]. eexists.
      now apply (ModifyUser_no_priv casemap ServerInstance st source target
                   attribute value F). }
  right. split; [reflexivity|].
  rewrite (ModifyUser_checked casemap ServerInstance st source target
             attribute value F P).
  destruct (SyntaxCheck ServerInstance attrib (validhostchars st) value)
    as [[|]|f].
  - left. split; [reflexivity|]. now eexists.
  - destruct (IS_LOCAL (heap st target)).
    + right. left. now repeat split.
    + right. right. left. now repeat split.
  - right. right. right. exists f. now split.
Qed.

(** What [Handle] does before [ModifyUser]: it stops on a vector that is
    too short or on a target that is not there, or goes on with the first
    two parameters, on the user itself when there are two parameters and
    on the registered user the second one names otherwise. *)
Lemma Handle_shape st user parameters :
  (List.length parameters < 2 /\
   Handle' user parameters st = mkRun (Failed out_of_bounds) st []) \/
  (exists p0 p1,
     nth_error parameters 0 = Some p0 /\
     nth_error parameters 1 = Some p1 /\
     ((Handle' user parameters st
       = mkRun (Returned CMD_FAILURE) st [WriteNumeric user (NoSuchNick p1)] /\
       List.length parameters <> 2 /\
       (FindNick ServerInstance (heap st) p1 = None \/
        exists target,
          FindNick ServerInstance (heap st) p1 = Some target /\
          registered (heap st target) <> REG_ALL)) \/
      exists target,
        Handle' user parameters st = ModifyUser' user target p0 p1 st /\
        (List.length parameters = 2 -> target = user) /\
        (List.length parameters <> 2 ->
         FindNick ServerInstance (heap st) p1 = Some target /\
         registered (heap st target) = REG_ALL))).
Proof.
  unfold Handle, param.
  destruct (Nat.eqb_spec (List.length parameters) 2) as [L|L].
  - right. destruct parameters as [|p0 [|p1 [|? ?]]]; try discriminate.
    exists p0, p1. split; [reflexivity|]. split; [reflexivity|].
    right. exists user. cbn [nth_error]. rewrite !bind_ret.
    split; [reflexivity|]. split; [reflexivity|]. intros N'. now destruct N'.
  - destruct parameters as [|p0 [|p1 rest]]; cbn [nth_error].
    + left. split; [simpl; lia|reflexivity].
    + left. split; [simpl; lia|reflexivity].
    + right. exists p0, p1. split; [reflexivity|]. split; [reflexivity|].
      rewrite bind_ret, bind_get.
      destruct (FindNick ServerInstance (heap st) p1) as [target|] eqn:T;
        [|left; split; [reflexivity|split; [exact L|now left]]].
      destruct (N.eqb_spec (registered (heap st target)) REG_ALL) as [R|R];
        cbn [negb];
        [|left; split; [reflexivity|split; [exact L|right; now exists target]]].
      right. exists target. rewrite bind_ret.
      split; [reflexivity|]. split; [intros L'; now destruct L|].
      intros _. now split.
Qed.

Ltac modify_paths st source target attribute value :=
  let H := fresh "H" in
  pose proof (ModifyUser_paths st source target attribute value) as H;
  cbv zeta in H;
  destruct H as
    [(?F & ?text & ?Hr)
    |(?attrib & ?F &
      [(?P & ?text & ?Hr)
      |(?P & [(?C & ?text & ?Hr)
             |[(?C & ?L & ?Hr)
              |[(?C & ?L & ?Hr)
               |(?f & ?C & ?Hr)]]])])].

(** Only the host check can throw, and only on the character 255. *)
Lemma SyntaxCheck_Failed attrib chars value f :
  SyntaxCheck ServerInstance attrib chars value = Failed f ->
  attrib = HostAttribute /\ f = out_of_range /\
  InStr char255 value /\
  String.length value <= MaxHost (Limits ServerInstance).
Proof.
  destruct attrib; simpl.
  - unfold HostAttribute_SyntaxCheck.
    destruct (Nat.ltb_spec (MaxHost (Limits ServerInstance)) (String.length value));
      [discriminate|].
    intros E. destruct (host_chars_ok_fault _ _ E) as [-> I]. now repeat split.
  - discriminate.
  - discriminate.
  - unfold UserAttribute_SyntaxCheck.
    now destruct (IdentMax (Limits ServerInstance) <? String.length value)%nat.
Qed.

(** ** What the user is sent *)

(** X5: [Handle] sends the user exactly one notice or numeric when it
    returns [CMD_FAILURE], as the last thing it does, and sends nothing
    when it returns [CMD_SUCCESS] or does not return; nobody else is
    sent anything. *)
Theorem Handle_one_output_per_failure st user parameters :
  let r := Handle' user parameters st in
  (outcome r = Returned CMD_FAILURE ->
   exists pre e,
     events r = pre ++ [e] /\ is_output e = true /\
     subject e = Some user /\ outputs pre = []) /\
  (outcome r <> Returned CMD_FAILURE -> outputs (events r) = []).
Proof.
  cbv zeta.
  destruct (Handle_shape st user parameters)
    as [[_ E]|(p0 & p1 & _ & _ & [(E & _ & _)|(target & E & _ & _)])]; rewrite E.
  - split; [discriminate|reflexivity].
  - split; [|intros N'; now contradiction N'].
    intros _. exists [], (WriteNumeric user (NoSuchNick p1)). now repeat split.
  - modify_paths st user target p0 p1; rewrite Hr; cbn [outcome events].
    + split; [|intros N'; now contradiction N'].
      intros _. exists [], (WriteNotice user text). now repeat split.
    + split; [|intros N'; now contradiction N'].
      intros _. eexists [_], (WriteNotice user text). now repeat split.
    + split; [|intros N'; now contradiction N'].
      intros _. eexists [_; _], (WriteNotice user text). now repeat split.
    + split; [discriminate|reflexivity].
    + split; [discriminate|reflexivity].
    + split; [discriminate|reflexivity].
Qed.

(** ** What [Handle] changes *)

(** X6: [Handle] never writes [validhostchars]; unless it returns
    [CMD_SUCCESS] it leaves the whole state as it was; and it changes at
    most one user. *)
Theorem Handle_state_change st user parameters :
  let r := Handle casemap ServerInstance REG_ALL user parameters st in
  validhostchars (after r) = validhostchars st /\
  (outcome r <> Returned CMD_SUCCESS -> after r = st) /\
  (exists t, forall p, p <> t -> heap (after r) p = heap st p).
Proof.
  cbv zeta.
  destruct (Handle_shape st user parameters)
    as [[_ E]|(p0 & p1 & _ & _ & [(E & _ & _)|(target & E & _ & _)])]; rewrite E.
  - repeat split. now exists user.
  - repeat split. now exists user.
  - modify_paths st user target p0 p1; rewrite Hr;
      cbn [outcome after validhostchars heap];
      try (repeat split; now exists user).
    split; [reflexivity|]. split; [intros N'; now contradiction N'|].
    exists target. intros p Np. unfold store.
    apply Nat.eqb_neq in Np. now rewrite Np.
Qed.

(** ** The order of the calls *)

(** X7: the calls of a dispatch are the first ones of: one privilege asked
    of the user, one check of a value on an attribute, one change of the
    target with that value on that attribute.  So a change is made at
    most once, and only after its value was checked and the privilege
    asked. *)
Theorem Handle_call_order st user parameters :
  exists priv attrib target value rest,
    [CallHasPrivPermission user priv;
     CallSyntaxCheck attrib value;
     CallChangeValue attrib target value]
    = calls (events (Handle' user parameters st)) ++ rest.
Proof.
  destruct (Handle_shape st user parameters)
    as [[_ E]|(p0 & p1 & _ & _ & [(E & _ & _)|(target & E & _ & _)])]; rewrite E.
  - exists EmptyString, HostAttribute, user, EmptyString. now eexists.
  - exists EmptyString, HostAttribute, user, EmptyString. now eexists.
  - modify_paths st user target p0 p1; rewrite Hr; cbn [events calls filter is_output negb].
    + exists EmptyString, HostAttribute, user, EmptyString. now eexists.
    + exists (priv_of user target p0), attrib, target, p1. now eexists.
    + exists (priv_of user target p0), attrib, target, p1. now eexists.
    + exists (priv_of user target p0), attrib, target, p1. now exists [].
    + exists (priv_of user target p0), attrib, target, p1. now eexists.
    + exists (priv_of user target p0), attrib, target, p1. now eexists.
Qed.


(** ** The two forms of the command *)

Lemma store_other (p t : UserPtr) (u : User) (h : Heap) :
  p <> t -> store t u h p = h p.
Proof.
  intros Np. unfold store. apply Nat.eqb_neq in Np. now rewrite Np.
Qed.

Ltac in_events H :=
  cbn in H;
  repeat (destruct H as [H|H]; [try discriminate H|]);
  try contradiction.

(** X8: with two parameters everything is about the user itself: every
    notice and every call is on the user, the privilege asked is the
    "-self" one of the first parameter, the value checked is the second
    parameter, on the attribute the first one names, no numeric is sent
    (the registration of the user is not looked at), and no other user
    changes. *)
Theorem Handle_two_parameters_self st user attribute value :
  let r := Handle' user [attribute; value] st in
  (forall e u, In e (events r) -> subject e = Some u -> u = user) /\
  (forall u priv,
     In (CallHasPrivPermission u priv) (events r) ->
     priv = ("usermod/" ++ c_str attribute ++ "-self")%string) /\
  (forall attrib v,
     In (CallSyntaxCheck attrib v) (events r) ->
     v = value /\ find casemap attribute (attributes st) = Some attrib) /\
  (forall u numeric, ~ In (WriteNumeric u numeric) (events r)) /\
  (forall p, p <> user -> heap (after r) p = heap st p).
Proof.
  cbv zeta. rewrite Handle_two.
  assert (P : priv_of user user attribute
              = ("usermod/" ++ c_str attribute ++ "-self")%string).
  { rewrite priv_of_string.
    destruct (Nat.eq_dec user user); [reflexivity|contradiction]. }
  modify_paths st user user attribute value; rewrite Hr;
    cbn [events after heap];
    (split; [|split; [|split; [|split]]]);
    try (intros u numeric I; now in_events I);
    try (intros e u I S; in_events I; subst e;
         first [discriminate S|now injection S]);
    try (intros u priv I; in_events I; injection I as _ <-; exact P);
    try (intros a v I; in_events I; injection I as <- <-; now split);
    try (intros p Np; first [reflexivity|now apply store_other]).
Qed.

(** X9: with three parameters the privilege is asked of the user, on the
    first parameter, and its scope goes by who the second parameter
    resolves to: "-self" when that is the user itself, "-others" when it
    is anybody else. *)
Theorem Handle_three_parameters_scope st user p0 p1 p2 u priv :
  In (CallHasPrivPermission u priv) (events (Handle' user [p0; p1; p2] st)) ->
  u = user /\
  exists target,
    FindNick ServerInstance (heap st) p1 = Some target /\
    registered (heap st target) = REG_ALL /\
    priv = ("usermod/" ++ c_str p0
              ++ (if Nat.eq_dec user target then "-self" else "-others"))%string.
Proof.
  destruct (Handle_shape st user [p0; p1; p2])
    as [[L _]|(q0 & q1 & N0 & N1 & [(E & _ & _)|(target & E & _ & T)])].
  - simpl in L. lia.
  - rewrite E. intros I. in_events I.
  - injection N0 as <-. injection N1 as <-.
    destruct T as [T R]; [discriminate|].
    rewrite E. intros I.
    assert (I' : u = user /\ priv = priv_of user target p0).
    { modify_paths st user target p0 p1; rewrite Hr in I; in_events I;
        injection I as <- <-; now split. }
    destruct I' as [-> ->]. split; [reflexivity|].
    exists target. split; [exact T|]. split; [exact R|].
    apply priv_of_string.
Qed.

(** X13: a numeric is sent only when the parameters are not two and the
    second one names nobody, or somebody who is not fully registered;
    it is the no-such-nick numeric for that parameter, sent to the user,
    and the only thing the dispatch does. *)
Theorem Handle_numeric_means_no_target st user parameters u numeric :
  In (WriteNumeric u numeric) (events (Handle' user parameters st)) ->
  List.length parameters <> 2 /\
  exists p1,
    nth_error parameters 1 = Some p1 /\
    u = user /\ numeric = NoSuchNick p1 /\
    Handle' user parameters st
    = mkRun (Returned CMD_FAILURE) st [WriteNumeric user (NoSuchNick p1)] /\
    (FindNick ServerInstance (heap st) p1 = None \/
     exists target,
       FindNick ServerInstance (heap st) p1 = Some target /\
       registered (heap st target) <> REG_ALL).
Proof.
  destruct (Handle_shape st user parameters)
    as [[_ E]|(p0 & p1 & _ & N1 & [(E & L & T)|(target & E & _ & _)])];
    rewrite E.
  - intros [].
  - intros [I|[]]. injection I as <- <-.
    split; [exact L|]. exists p1. now repeat split.
  - intros I. exfalso.
    modify_paths st user target p0 p1; rewrite Hr in I; now in_events I.
Qed.

(** ** Bounds and throws *)

(** X10: [Handle] reads past the end of the parameters exactly when there are
    fewer than two of them, and then before it does anything else. *)
Theorem Handle_parameter_bounds st user parameters :
  (List.length parameters < 2 ->
   Handle casemap ServerInstance REG_ALL user parameters st
   = mkRun (Failed out_of_bounds) st []) /\
  (outcome (Handle casemap ServerInstance REG_ALL user parameters st)
   = Failed out_of_bounds ->
   List.length parameters < 2).
Proof.
  destruct (Handle_shape st user parameters)
    as [[L E]|(p0 & p1 & N0 & N1 & [(E & _ & _)|(target & E & _ & _)])].
  - split; [now intros _|now intros _].
  - assert (L : 2 <= List.length parameters).
    { destruct parameters as [|? [|? ?]]; try discriminate; simpl; lia. }
    split; [lia|]. rewrite E. discriminate.
  - assert (L : 2 <= List.length parameters).
    { destruct parameters as [|? [|? ?]]; try discriminate; simpl; lia. }
    split; [lia|]. rewrite E.
    modify_paths st user target p0 p1; rewrite Hr; cbn [outcome];
      try discriminate.
    intros X. injection X as ->.
    now destruct (SyntaxCheck_Failed _ _ _ C) as (_ & D & _).
Qed.

(** X11: [Handle] throws only out of the host check, on a value within
    [MaxHost] that has the character 255 in it; then the user is sent
    nothing and the state is as it was. *)
Theorem Handle_throws_on_char255 st user parameters :
  outcome (Handle' user parameters st) = Failed out_of_range ->
  after (Handle' user parameters st) = st /\
  outputs (events (Handle' user parameters st)) = [] /\
  exists value,
    In (CallSyntaxCheck HostAttribute value) (events (Handle' user parameters st)) /\
    InStr char255 value /\
    String.length value <= MaxHost (Limits ServerInstance).
Proof.
  destruct (Handle_shape st user parameters)
    as [[L E]|(p0 & p1 & N0 & N1 & [(E & _ & _)|(target & E & _ & _)])]; rewrite E;
    try discriminate.
  modify_paths st user target p0 p1; rewrite Hr; cbn [outcome after events];
    try discriminate.
  intros _. destruct (SyntaxCheck_Failed _ _ _ C) as (-> & _ & I & L).
  split; [reflexivity|]. split; [reflexivity|].
  exists p1. split; [right; now left|now split].
Qed.

(** X12: the character map only matters to the host attribute: for a name
    that does not find the host attribute, [ModifyUser] returns, and
    with the same result, log and users whatever [validhostchars] is. *)
Theorem validhostchars_only_for_host st chars source target attribute value :
  find casemap attribute (attributes st) <> Some HostAttribute ->
  let st' := mkState (heap st) chars (attributes st) in
  let r := ModifyUser' source target attribute value st in
  let r' := ModifyUser' source target attribute value st' in
  (exists result, outcome r = Returned result) /\
  outcome r' = outcome r /\
  events r' = events r /\
  heap (after r') = heap (after r).
Proof.
  intros NH. cbv zeta.
  set (st' := mkState (heap st) chars (attributes st)).
  destruct (find casemap attribute (attributes st)) as [attrib|] eqn:F.
  2:{ rewrite (ModifyUser_not_found casemap ServerInstance st
                 source target attribute value F).
      rewrite (ModifyUser_not_found casemap ServerInstance st'
                 source target attribute value F).
      split; [now eexists|now repeat split]. }
  assert (NA : attrib <> HostAttribute) by congruence.
  assert (S : SyntaxCheck ServerInstance attrib chars value
              = SyntaxCheck ServerInstance attrib (validhostchars st) value)
    by (destruct attrib; [now contradiction NA|reflexivity..]).
  destruct (HasPrivPermission (heap st source) (priv_of source target attribute))
    eqn:P.
  2:{ rewrite (ModifyUser_no_priv casemap ServerInstance st
                 source target attribute value F P).
      rewrite (ModifyUser_no_priv casemap ServerInstance st'
                 source target attribute value F P).
      split; [now eexists|now repeat split]. }
  rewrite (ModifyUser_checked casemap ServerInstance st
             source target attribute value F P).
  rewrite (ModifyUser_checked casemap ServerInstance st'
             source target attribute value F P).
  cbn [st' heap validhostchars attributes]. rewrite S.
  destruct (SyntaxCheck ServerInstance attrib (validhostchars st) value)
    as [[|]|f] eqn:C.
  - split; [now eexists|now repeat split].
  - destruct (IS_LOCAL (heap st target));
      (split; [now eexists|now repeat split]).
  - now destruct (SyntaxCheck_Failed _ _ _ C) as (-> & _).
Qed.

End DispatchFacts.


(* ================================================================== *)
(** * The dispatch on the concrete server *)

Import Example.

Lemma ascii_map_lower (c : ascii) :
  (97 <= uchar c <= 122)%N -> ascii_case_insensitive_map c = c.
Proof.
  unfold ascii_case_insensitive_map, uchar. intros [L U].
  destruct (N.leb_spec (N_of_ascii c) 90) as [H|H]; [lia|].
  now rewrite andb_false_r.
Qed.

Lemma ascii_map_NUL : ascii_case_insensitive_map NUL = NUL.
Proof. reflexivity. Qed.

(** The default character map was read without fault, and it allows
    exactly its own characters. *)
Example initial_validhostchars :
  outcome (ReadConfig default_charmap (mkState users 0%N registry)) = Returned tt /\
  forall c, allowed (validhostchars initial) c <-> InStr c default_charmap.
Proof.
  assert (H : forall c, InStr c default_charmap -> uchar c <> 255%N).
  { intros c I E. assert (C : c = "255"%char) by (apply uchar_inj; exact E).
    subst c. simpl in I. intuition discriminate. }
  destruct (ReadConfig_allowed default_charmap (mkState users 0%N registry) H)
    as (O & _ & _ & A).
  split; [exact O|exact A].
Qed.

(** Whatever the third parameter is, [Handle] does the same: it is never
    read. *)
Lemma Handle_ignores_third casemap ServerInstance REG_ALL st user p0 p1 p2 p2' :
  Handle casemap ServerInstance REG_ALL user [p0; p1; p2] st
  = Handle casemap ServerInstance REG_ALL user [p0; p1; p2'] st.
Proof. reflexivity. Qed.

(** C1: the code does the opposite of the claim.  [alice], who holds
    usermod/host-self, asks for the host newhost.example: the validator
    returns true, and the command fails with the notice that the host is
    not valid and changes nothing.  She asks for the host "bad host!":
    the validator returns false, and the command succeeds and sets it. *)
Theorem valid_host_refused_invalid_host_set :
  SyntaxCheck server HostAttribute (validhostchars initial) "newhost.example"
  = Returned true /\
  handle 1 ["host"; "newhost.example"] initial
  = mkRun (Returned CMD_FAILURE) initial
      [CallHasPrivPermission 1 "usermod/host-self";
       CallSyntaxCheck HostAttribute "newhost.example";
       WriteNotice 1 "*** USERMOD: The host you specified is not valid!"] /\
  SyntaxCheck server HostAttribute (validhostchars initial) "bad host!"
  = Returned false /\
  outcome (handle 1 ["host"; "bad host!"] initial) = Returned CMD_SUCCESS /\
  events (handle 1 ["host"; "bad host!"] initial)
  = [CallHasPrivPermission 1 "usermod/host-self";
     CallSyntaxCheck HostAttribute "bad host!";
     CallChangeValue HostAttribute 1 "bad host!"] /\
  displayhost (heap (after (handle 1 ["host"; "bad host!"] initial)) 1) = "bad host!".
Proof. vm_compute. repeat split. Qed.

(** C2: with three parameters the value that is checked and set is the
    second one, the nickname of the target.  [alice], who holds
    usermod/host-others, asks for the host of [bob], whose nickname is
    "[bob]", to be new.host: the command succeeds and the displayed host
    of [bob] is "[bob]". *)
Theorem three_parameters_set_the_target_name :
  FindNick server (heap initial) "[bob]" = Some 2 /\
  outcome (handle 1 ["host"; "[bob]"; "new.host"] initial) = Returned CMD_SUCCESS /\
  events (handle 1 ["host"; "[bob]"; "new.host"] initial)
  = [CallHasPrivPermission 1 "usermod/host-others";
     CallSyntaxCheck HostAttribute "[bob]";
     CallChangeValue HostAttribute 2 "[bob]"] /\
  displayhost (heap (after (handle 1 ["host"; "[bob]"; "new.host"] initial)) 2)
  = "[bob]" /\
  "[bob]" <> "new.host".
Proof. vm_compute. repeat split. discriminate. Qed.

(** ** The theorems at work on the concrete server *)

(** [alice] does not hold usermod/nick-others: her request to rename
    [bob] fails on the privilege. *)
Lemma privilege_token_checked_witness :
  (forall c, (97 <= uchar c <= 122)%N -> ascii_case_insensitive_map c = c) /\
  ascii_case_insensitive_map NUL = NUL /\
  attributes initial = CommandUserMod_attributes ascii_case_insensitive_map /\
  find ascii_case_insensitive_map "nick" (attributes initial) <> None /\
  HasPrivPermission (heap initial 1) "usermod/nick-others" = false /\
  modify 1 2 "nick" "newnick" initial
  = mkRun (Returned CMD_FAILURE) initial
      [CallHasPrivPermission 1 "usermod/nick-others";
       WriteNotice 1
         "*** USERMOD: The usermod/nick-others oper privilege is required to change [bob]'s nick!"].
Proof.
  assert (F : find ascii_case_insensitive_map "nick" (attributes initial) <> None)
    by (vm_compute; discriminate).
  split; [exact ascii_map_lower|].
  split; [reflexivity|]. split; [reflexivity|]. split; [exact F|].
  split; [reflexivity|].
  exact (proj2 (proj2 (proj2
           (privilege_token_checked ascii_case_insensitive_map server
              ascii_map_lower ascii_map_NUL
              initial 1 2 "nick" "newnick" eq_refl F))) eq_refl).
Defined.

(** frobnicate is not an attribute. *)
Lemma unknown_attribute_fails_witness :
  find ascii_case_insensitive_map "frobnicate" (attributes initial) = None /\
  handle 1 ["frobnicate"; "somevalue"] initial
  = mkRun (Returned CMD_FAILURE) initial
      [WriteNotice 1 "*** USERMOD: frobnicate is not a valid user attribute!"].
Proof.
  split; [reflexivity|].
  exact (proj1 (proj2 (unknown_attribute_fails ascii_case_insensitive_map server
                         REG_ALL initial 1 1 "frobnicate" "somevalue" eq_refl))).
Defined.

(** Nobody is called ghost, and [dave] has not finished registering. *)
Lemma no_such_nick_fails_witness :
  FindNick server (heap initial) "ghost" = None /\
  handle 1 ["nick"; "ghost"; "newnick"] initial
  = mkRun (Returned CMD_FAILURE) initial [WriteNumeric 1 (NoSuchNick "ghost")] /\
  FindNick server (heap initial) "dave" = Some 4 /\
  registered (heap initial 4) <> REG_ALL /\
  handle 1 ["nick"; "dave"; "newnick"] initial
  = mkRun (Returned CMD_FAILURE) initial [WriteNumeric 1 (NoSuchNick "dave")].
Proof.
  assert (R : registered (heap initial 4) <> REG_ALL) by (vm_compute; discriminate).
  split; [reflexivity|]. split.
  - exact (@no_such_nick_fails ascii_case_insensitive_map server REG_ALL
             initial 1 "nick" "ghost" "newnick" (or_introl eq_refl)).
  - split; [reflexivity|]. split; [exact R|].
    exact (@no_such_nick_fails ascii_case_insensitive_map server REG_ALL
             initial 1 "nick" "dave" "newnick"
             (or_intror (ex_intro _ 4 (conj eq_refl R)))).
Defined.

(** HoSt is a spelling of host. *)
Lemma registry_lookup_case_insensitive_witness :
  (forall c, (97 <= uchar c <= 122)%N -> ascii_case_insensitive_map c = c) /\
  In ("host", HostAttribute) registered_attributes /\
  equivalent ascii_case_insensitive_map "HoSt" "host" = true /\
  find ascii_case_insensitive_map "HoSt" registry = Some HostAttribute.
Proof.
  split; [exact ascii_map_lower|].
  split; [now left|]. split; [reflexivity|].
  exact (proj1 (proj1 (registry_lookup_case_insensitive
                         ascii_case_insensitive_map ascii_map_lower)
                  "host" HostAttribute "HoSt" (or_introl eq_refl) eq_refl)).
Defined.

(** A prefix of a name, a name with something after it and a name with a
    letter changed are not found. *)
Example registry_lookup_misses :
  find ascii_case_insensitive_map "hos" registry = None /\
  find ascii_case_insensitive_map "hosts" registry = None /\
  find ascii_case_insensitive_map "rear" registry = None /\
  find ascii_case_insensitive_map EmptyString registry = None.
Proof. repeat split. Qed.

(** The registry of the concrete server, before and after a request
    that changes a user. *)
Lemma registry_is_invariant_witness :
  (forall c, (97 <= uchar c <= 122)%N -> ascii_case_insensitive_map c = c) /\
  registry = registered_attributes /\
  attributes (after (handle 1 ["host"; "bad host!"] initial)) = attributes initial.
Proof.
  split; [exact ascii_map_lower|].
  pose proof (registry_is_invariant ascii_case_insensitive_map server REG_ALL
                ascii_map_lower
                initial 1 ["host"; "bad host!"] 1 1 "host" "bad host!") as H.
  split; [exact (proj1 H)|exact (proj1 (proj2 H))].
Defined.

(** [carol] is on another server: the request for her host succeeds and
    leaves her as she was. *)
Lemma ChangeValue_only_on_local_target_witness :
  IS_LOCAL (heap initial 3) = false /\
  outcome (handle 1 ["host"; "carol|afk"; "x.example"] initial) = Returned CMD_SUCCESS /\
  heap (after (handle 1 ["host"; "carol|afk"; "x.example"] initial)) 3 = heap initial 3.
Proof.
  split; [reflexivity|]. split; [reflexivity|].
  exact (proj2 (proj2 (ChangeValue_only_on_local_target
                         ascii_case_insensitive_map server REG_ALL
                         initial 1 3 "host" "x"
                         1 ["host"; "carol|afk"; "x.example"]))
               3 eq_refl).
Defined.

(** A space is not a host character. *)
Lemma HostAttribute_SyntaxCheck_spec_witness :
  InStr " "%char "bad host!" /\
  ~ allowed (validhostchars initial) " "%char /\
  (HostAttribute_SyntaxCheck server (validhostchars initial) "bad host!" = Returned false \/
   HostAttribute_SyntaxCheck server (validhostchars initial) "bad host!"
   = Failed out_of_range).
Proof.
  assert (I : InStr " "%char "bad host!") by (simpl; tauto).
  assert (A : ~ allowed (validhostchars initial) " "%char)
    by (vm_compute; discriminate).
  split; [exact I|]. split; [exact A|].
  exact (proj2 (proj2 (HostAttribute_SyntaxCheck_spec server
                         (validhostchars initial) "bad host!"))
               (ex_intro _ " "%char (conj I A))).
Defined.

(** ** The configuration and the two forms of the command at work *)

Lemma default_charmap_no_char255 : ~ InStr char255 default_charmap.
Proof. simpl. unfold char255. intuition discriminate. Qed.

(** The default map, read into the concrete server. *)
Lemma ReadConfig_configures_host_check_witness :
  ~ InStr char255 default_charmap /\
  outcome (ReadConfig default_charmap (mkState users 0%N registry)) = Returned tt /\
  (HostAttribute_SyntaxCheck server (validhostchars initial) "irc.example"
   = Returned true <->
   String.length "irc.example" <= MaxHost (Limits server) /\
   forall c, InStr c "irc.example" -> InStr c default_charmap).
Proof.
  split; [exact default_charmap_no_char255|].
  pose proof (ReadConfig_configures_host_check server default_charmap "irc.example"
                (mkState users 0%N registry) default_charmap_no_char255) as H.
  cbv zeta in H. destruct H as (O & _ & _ & _ & _ & S).
  split; [exact O|exact S].
Defined.

(** Two spellings of one set of characters. *)
Lemma ReadConfig_same_characters_witness :
  ~ InStr char255 "abc" /\
  (forall c, InStr c "abc" <-> InStr c "cabba") /\
  heap initial = heap (mkState users 0%N registry) /\
  attributes initial = attributes (mkState users 0%N registry) /\
  ReadConfig "abc" initial = ReadConfig "cabba" (mkState users 0%N registry).
Proof.
  assert (N' : ~ InStr char255 "abc")
    by (simpl; unfold char255; intuition discriminate).
  assert (E : forall c, InStr c "abc" <-> InStr c "cabba") by (simpl; tauto).
  split; [exact N'|]. split; [exact E|].
  split; [reflexivity|]. split; [reflexivity|].
  exact (ReadConfig_same_characters "abc" "cabba" initial
           (mkState users 0%N registry) N' E eq_refl eq_refl).
Defined.

(** A map that has the character 255 after "ab". *)
Lemma ReadConfig_char255_witness :
  ~ InStr char255 "ab" /\
  outcome (ReadConfig ("ab" ++ String char255 "cd") initial) = Failed out_of_range /\
  (forall c,
     allowed (validhostchars (after (ReadConfig ("ab" ++ String char255 "cd") initial))) c
     <-> InStr c "ab").
Proof.
  assert (N' : ~ InStr char255 "ab")
    by (simpl; unfold char255; intuition discriminate).
  split; [exact N'|].
  pose proof (ReadConfig_char255 "ab" "cd" initial N') as H.
  cbv zeta in H. destruct H as (O & _ & _ & _ & A).
  split; [exact O|exact A].
Defined.

(** [alice] names herself in the three-parameter form: the privilege
    asked is the one for herself. *)
Lemma Handle_three_parameters_scope_witness :
  In (CallHasPrivPermission 1 "usermod/host-self")
     (events (handle 1 ["host"; "alice"; "x.example"] initial)) /\
  exists target,
    FindNick server (heap initial) "alice" = Some target /\
    registered (heap initial target) = REG_ALL /\
    "usermod/host-self"
    = ("usermod/" ++ c_str "host"
         ++ (if Nat.eq_dec 1 target then "-self" else "-others"))%string.
Proof.
  assert (I : In (CallHasPrivPermission 1 "usermod/host-self")
                 (events (handle 1 ["host"; "alice"; "x.example"] initial)))
    by (vm_compute; now left).
  split; [exact I|].
  exact (proj2 (Handle_three_parameters_scope ascii_case_insensitive_map server
                  REG_ALL initial 1 "host" "alice" "x.example"
                  1 "usermod/host-self" I)).
Defined.

(** A host with the character 255 in it. *)
Lemma Handle_throws_on_char255_witness :
  outcome (handle 1 ["host"; String char255 "x"] initial) = Failed out_of_range /\
  after (handle 1 ["host"; String char255 "x"] initial) = initial /\
  outputs (events (handle 1 ["host"; String char255 "x"] initial)) = [].
Proof.
  assert (O : outcome (handle 1 ["host"; String char255 "x"] initial)
              = Failed out_of_range) by reflexivity.
  split; [exact O|].
  pose proof (Handle_throws_on_char255 ascii_case_insensitive_map server REG_ALL
                initial 1 ["host"; String char255 "x"] O) as H.
  destruct H as (A & E & _). split; [exact A|exact E].
Defined.

(** A request for the real name, with the default map and with no
    character allowed at all. *)
Lemma validhostchars_only_for_host_witness :
  find ascii_case_insensitive_map "real" (attributes initial) <> Some HostAttribute /\
  outcome (modify 1 3 "real" "Carol C" (mkState (heap initial) 0%N (attributes initial)))
  = outcome (modify 1 3 "real" "Carol C" initial) /\
  events (modify 1 3 "real" "Carol C" (mkState (heap initial) 0%N (attributes initial)))
  = events (modify 1 3 "real" "Carol C" initial).
Proof.
  assert (F : find ascii_case_insensitive_map "real" (attributes initial)
              <> Some HostAttribute) by (vm_compute; discriminate).
  split; [exact F|].
  pose proof (validhostchars_only_for_host ascii_case_insensitive_map server
                initial 0%N 1 3 "real" "Carol C" F) as H.
  cbv zeta in H. destruct H as (_ & O & E & _).
  split; [exact O|exact E].
Defined.

(** The numeric for ghost has one cause: nobody is called ghost. *)
Lemma Handle_numeric_means_no_target_witness :
  In (WriteNumeric 1 (NoSuchNick "ghost"))
     (events (handle 1 ["nick"; "ghost"; "newnick"] initial)) /\
  List.length ["nick"; "ghost"; "newnick"] <> 2 /\
  exists p1,
    nth_error ["nick"; "ghost"; "newnick"] 1 = Some p1 /\
    1 = 1 /\ NoSuchNick "ghost" = NoSuchNick p1 /\
    handle 1 ["nick"; "ghost"; "newnick"] initial
    = mkRun (Returned CMD_FAILURE) initial [WriteNumeric 1 (NoSuchNick p1)] /\
    (FindNick server (heap initial) p1 = None \/
     exists target,
       FindNick server (heap initial) p1 = Some target /\
       registered (heap initial target) <> REG_ALL).
Proof.
  assert (I : In (WriteNumeric 1 (NoSuchNick "ghost"))
                 (events (handle 1 ["nick"; "ghost"; "newnick"] initial)))
    by (vm_compute; now left).
  split; [exact I|].
  exact (Handle_numeric_means_no_target ascii_case_insensitive_map server REG_ALL
           initial 1 ["nick"; "ghost"; "newnick"] 1 (NoSuchNick "ghost") I).
Defined.
